(** * Situação fiscal: the report classifier and the company resolver

    A shallow embedding of [streamlit_parcelamento_app.py]: the text
    classifier [analyze_text], the parsing of the operator's mapping, the
    resolution of a report's company from its file name, and the assembly of
    the three outputs of a run (table and CSV, PDF summary, reorganised
    archive).

    Python's [str] is a sequence of Unicode code points and is modelled as a
    list of code points; [bytes] is a list of byte values.  Library calls whose
    code is not part of the program (the Unicode database behind [\d] and
    [str.lower], PyPDF2, reportlab, the csv quoting rules) are collected in the
    class [Externals]; everything the program itself computes is a definition
    below. *)

From Stdlib Require Import ZArith NArith String Ascii.
From stdpp Require Import base list gmap.

Local Open Scope Z_scope.

(** ** Python strings and bytes *)

Definition codepoint := N.
Definition str := list codepoint.
Definition bytes := list N.

(** Literals: a string of this file is the UTF-8 encoding of the Python
    literal; [py] decodes it into its code points. *)
Fixpoint utf8_decode (bs : list N) (pending : nat) (acc : N) : str :=
  match bs with
  | [] => []
  | b :: bs' =>
    match pending with
    | O =>
      if (b <? 128)%N then b :: utf8_decode bs' 0 0%N
      else if (b <? 224)%N then utf8_decode bs' 1 (b - 192)%N
      else if (b <? 240)%N then utf8_decode bs' 2 (b - 224)%N
      else utf8_decode bs' 3 (b - 240)%N
    | S O => (acc * 64 + (b - 128))%N :: utf8_decode bs' 0 0%N
    | S p => utf8_decode bs' p (acc * 64 + (b - 128))%N
    end
  end.

Definition py (s : string) : str :=
  utf8_decode (map N_of_ascii (list_ascii_of_string s)) 0 0%N.

(** [s.startswith(sub)], used by [find] and [in] at every position. *)
Fixpoint startswith (sub s : str) : bool :=
  match sub, s with
  | [], _ => true
  | _ :: _, [] => false
  | a :: sub', b :: s' => (a =? b)%N && startswith sub' s'
  end.

(** [s.find(sub)], counting from position [i]: the lowest index at which
    [sub] starts, [-1] when there is none. *)
Fixpoint find_from (sub s : str) (i : Z) : Z :=
  match s with
  | [] => if startswith sub [] then i else -1
  | _ :: s' => if startswith sub s then i else find_from sub s' (i + 1)
  end.

Definition find (s sub : str) : Z := find_from sub s 0.

(** [sub in s]. *)
Fixpoint str_in (sub s : str) : bool :=
  match s with
  | [] => startswith sub []
  | _ :: s' => startswith sub s || str_in sub s'
  end.

(** Slices [s[start:stop]] and [s[start:]]: a negative bound counts from the
    end, and both bounds are clamped to [0, len(s)]. *)
Definition slice_bound (len i : Z) : Z :=
  if i <? 0 then Z.max 0 (i + len) else Z.min i len.

Definition slice (s : str) (start stop : Z) : str :=
  let len := Z.of_nat (length s) in
  let a := slice_bound len start in
  let b := slice_bound len stop in
  take (Z.to_nat (b - a)) (drop (Z.to_nat a) s).

Definition slice_from (s : str) (start : Z) : str :=
  drop (Z.to_nat (slice_bound (Z.of_nat (length s)) start)) s.

(** ** The status classifier *)

Definition rf_title : str :=
  Eval vm_compute in py "Diagnóstico Fiscal na Receita Federal".
Definition pgfn_title : str :=
  Eval vm_compute in py "Diagnóstico Fiscal na Procuradoria-Geral da Fazenda Nacional".
Definition EM_PARCELAMENTO : str := Eval vm_compute in py "EM PARCELAMENTO".
Definition BASE_INDISPONIVEL : str := Eval vm_compute in py "BASE INDISPONÍVEL".
Definition Parcelamento : str := Eval vm_compute in py "Parcelamento".
Definition Pendencia_Parcelamento : str :=
  Eval vm_compute in py "Pendência - Parcelamento".
Definition Nao_foram_detectadas : str :=
  Eval vm_compute in py "Não foram detectadas pendências/exigibilidades suspensas".

(** Lines 25-28: the two sections. *)
Definition rf_section (text : str) : str :=
  let rf_start := find text rf_title in
  let pgfn_start := find text pgfn_title in
  if negb (rf_start =? -1) && negb (pgfn_start =? -1)
  then slice text rf_start pgfn_start else [].

Definition pgfn_section (text : str) : str :=
  let pgfn_start := find text pgfn_title in
  if negb (pgfn_start =? -1) then slice_from text pgfn_start else [].

(** Lines 30-36.  The two [if] statements assign [False] to a flag that is
    already [False]; they are kept as the source has them. *)
Definition analyze_text (text : str) : bool * bool :=
  let rf_section := rf_section text in
  let pgfn_section := pgfn_section text in
  let rf_parc := str_in EM_PARCELAMENTO rf_section in
  let rf_parc :=
    if negb rf_parc && str_in BASE_INDISPONIVEL rf_section
       && str_in Parcelamento rf_section
    then false else rf_parc in
  let pgfn_parc := str_in Pendencia_Parcelamento pgfn_section in
  let pgfn_parc :=
    if negb pgfn_parc && str_in Nao_foram_detectadas pgfn_section
    then false else pgfn_parc in
  (rf_parc, pgfn_parc).

(** The classifier without the two discarded checks, as the design notes
    describe it. *)
Definition analyze_text_simplified (text : str) : bool * bool :=
  (str_in EM_PARCELAMENTO (rf_section text),
   str_in Pendencia_Parcelamento (pgfn_section text)).

(** ** Text helpers of the resolver *)

Definition TAB : codepoint := 9%N.

(** [str.isspace] of one character, the set [str.strip] removes. *)
Definition isspace (c : codepoint) : bool :=
  ((9 <=? c) && (c <=? 13) || (28 <=? c) && (c <=? 32)
   || (c =? 133) || (c =? 160) || (c =? 5760)
   || (8192 <=? c) && (c <=? 8202)
   || (c =? 8232) || (c =? 8233) || (c =? 8239) || (c =? 8287)
   || (c =? 12288))%N.

(** The line boundaries of [str.splitlines]. *)
Definition is_linebreak (c : codepoint) : bool :=
  ((10 <=? c) && (c <=? 13) || (28 <=? c) && (c <=? 30)
   || (c =? 133) || (c =? 8232) || (c =? 8233))%N.

Fixpoint lstrip (s : str) : str :=
  match s with
  | c :: s' => if isspace c then lstrip s' else s
  | [] => []
  end.

Definition rstrip (s : str) : str := rev (lstrip (rev s)).
Definition strip (s : str) : str := rstrip (lstrip s).

(** [str.splitlines()]: [cur] is the line being read.  A carriage return
    followed by a line feed is one boundary, and no empty line is produced
    after the last boundary. *)
Fixpoint splitlines_from (cur s : str) : list str :=
  match s with
  | [] => match cur with [] => [] | _ => [cur] end
  | c :: s' =>
    if is_linebreak c then
      cur :: match s' with
             | d :: s'' =>
               if (c =? 13)%N && (d =? 10)%N then splitlines_from [] s''
               else splitlines_from [] s'
             | [] => []
             end
    else splitlines_from (cur ++ [c]) s'
  end.

Definition splitlines (s : str) : list str := splitlines_from [] s.

(** [s.split(sep)] for a separator of one character. *)
Fixpoint split_from (sep : codepoint) (cur s : str) : list str :=
  match s with
  | [] => [cur]
  | c :: s' =>
    if (c =? sep)%N then cur :: split_from sep [] s'
    else split_from sep (cur ++ [c]) s'
  end.

Definition split (s : str) (sep : codepoint) : list str := split_from sep [] s.

Definition endswith (s suffix : str) : bool := startswith (rev suffix) (rev s).

(** ** Exceptions and library calls *)

(** An exception raised inside a library; [exception_str] is [str(e)]. *)
Record Exception := { exception_str : str }.

(** What can end a run: the unpacking of line 87, the encoding of line 134,
    or an exception that a library raised and nothing caught. *)
Inductive exn :=
| ValueError_unpack
| UnicodeEncodeError
| Propagated (e : Exception).

Definition res (A : Type) : Type := exn + A.

Definition res_bind {A B} (r : res A) (k : A -> res B) : res B :=
  match r with inl e => inl e | inr a => k a end.

Definition of_library {A} (r : Exception + A) : res A :=
  match r with inl e => inl (Propagated e) | inr a => inr a end.

Notation "'try!' x := r 'in' k" := (res_bind r (fun x => k))
  (at level 10, x name, r at level 100, k at level 200).

(** An opened input archive: the names of [infolist()] in order, and
    [read(name)], which is looked up by name. *)
Record ZipFile := {
  infolist : list str;
  zf_read : str -> Exception + bytes
}.

(** The code that is not the program's. *)
Class Externals := {
  (** the decimal digits of the Unicode database: [\d], and [\D] its
      complement *)
  isdecimal : codepoint -> bool;
  (** [str.lower] *)
  str_lower : str -> str;
  (** [zipfile.ZipFile(BytesIO(b))] *)
  zipfile_ZipFile : bytes -> Exception + ZipFile;
  (** [PdfReader(BytesIO(b)).pages], each page given by what its
      [extract_text()] does: raise, return [None], or return a text *)
  PdfReader_pages : bytes -> Exception + list (Exception + option str);
  (** reportlab: everything of [generate_pdf] but the table's cells *)
  reportlab_build : list (list str) -> Exception + bytes;
  (** the csv writer: the quoting of one field, and the line terminator *)
  csv_field : str -> str;
  os_linesep : str;
  (** [os.sep], a single character *)
  os_sep : codepoint;
  (** whether [zout.writestr] raises for a member, given the members written
      so far, the name under which it would be stored and its data: a name
      whose encoding is longer than 65535 bytes raises [struct.error], a
      name that cannot be encoded raises [UnicodeEncodeError] *)
  zipfile_writestr_raises : list (str * bytes) -> str -> bytes -> option Exception
}.

(** ** The identifier resolver *)

Definition Desconhecida : str := Eval vm_compute in py "Desconhecida".

Section Resolver.
Context `{Externals}.

(** [re.sub(r'\D', '', s)] *)
Definition re_sub_nondigits (s : str) : str := filter (λ c, isdecimal c = true) s.

(** [re.search(r"(\d{14})", s)] and its group 1: the match at the lowest
    position. *)
Fixpoint re_search_d14 (s : str) : option str :=
  match s with
  | [] => None
  | _ :: s' =>
    if (14 <=? length s)%nat && forallb isdecimal (take 14 s)
    then Some (take 14 s) else re_search_d14 s'
  end.

(** Lines 84-88. *)
Fixpoint parse_lines (mapping : gmap str str) (lines : list str) : res (gmap str str) :=
  match lines with
  | [] => inr mapping
  | line :: lines' =>
    if str_in [TAB] line then
      match split line TAB with
      | [name; cnpj] =>
        parse_lines (<[re_sub_nondigits cnpj := strip name]> mapping) lines'
      | _ => inl ValueError_unpack
      end
    else parse_lines mapping lines'
  end.

Definition parse_mapping (mapping_text : str) : res (gmap str str) :=
  parse_lines ∅ (splitlines mapping_text).

(** [mapping.get(cnpj, default)], where [cnpj] may be [None]: the keys of
    the mapping are strings, so [None] is never one of them. *)
Definition dict_get (mapping : gmap str str) (cnpj : option str) (default : str) : str :=
  match cnpj with
  | Some k => match mapping !! k with Some v => v | None => default end
  | None => default
  end.

(** Lines 100-102. *)
Definition resolve (mapping : gmap str str) (filename : str) : str :=
  let cnpj := re_search_d14 filename in
  dict_get mapping cnpj Desconhecida.

End Resolver.

(** ** The outputs *)

Definition Sim : str := Eval vm_compute in py "Sim".
Definition Nao : str := Eval vm_compute in py "Não".
Definition Empresa : str := Eval vm_compute in py "Empresa".
Definition Parcelamento_RF : str := Eval vm_compute in py "Parcelamento RF".
Definition Parcelamento_PGFN : str := Eval vm_compute in py "Parcelamento PGFN".

(** ["Sim" if b else "Não"] *)
Definition sim_nao (b : bool) : str := if b then Sim else Nao.

(** The dictionaries of [results]. *)
Record result := { empresa : str; rf : bool; pgfn : bool }.

(** pandas.  A frame built from a list of dictionaries takes as columns the
    keys in the order in which they first appear, so an empty list gives a
    frame without columns; a key missing from a dictionary gives an empty
    cell. *)
Record DataFrame := { columns : list str; rows : list (list str) }.

Definition record := list (str * str).

Definition add_key (cols : list str) (k : str) : list str :=
  if bool_decide (k ∈ cols) then cols else cols ++ [k].

Definition record_get (r : record) (k : str) : str :=
  match List.find (λ kv, bool_decide (kv.1 = k)) r with
  | Some kv => kv.2
  | None => []
  end.

Definition pd_DataFrame (records : list record) : DataFrame :=
  let cols := fold_left (λ cols r, fold_left add_key (map fst r) cols) records [] in
  {| columns := cols; rows := map (λ r, map (record_get r) cols) records |}.

(** [sep.join(l)] *)
Fixpoint join (sep : str) (l : list str) : str :=
  match l with
  | [] => []
  | [x] => x
  | x :: l' => x ++ sep ++ join sep l'
  end.

(** [text.encode('utf-8')]: a surrogate cannot be encoded. *)
Definition encode_codepoint (c : codepoint) : res bytes :=
  (if c <? 128 then inr [c]
   else if c <? 2048 then inr [192 + c / 64; 128 + c mod 64]
   else if (55296 <=? c) && (c <=? 57343) then inl UnicodeEncodeError
   else if c <? 65536 then
     inr [224 + c / 4096; 128 + (c / 64) mod 64; 128 + c mod 64]
   else
     inr [240 + c / 262144; 128 + (c / 4096) mod 64;
          128 + (c / 64) mod 64; 128 + c mod 64])%N.

Fixpoint encode_utf8 (s : str) : res bytes :=
  match s with
  | [] => inr []
  | c :: s' =>
    try! b := encode_codepoint c in
    try! bs := encode_utf8 s' in
    inr (b ++ bs)
  end.

(** What the operator sees: the calls to streamlit, in order.  The data of a
    download is a byte string, or for the archive written through
    [zipfile.ZipFile(out_buffer, 'w')] the list of its [writestr] calls. *)
Inductive payload :=
| RawBytes (b : bytes)
| ZipArchive (members : list (str * bytes)).

Inductive st_call :=
| st_title (body : str)
| st_markdown (body : str)
| st_file_uploader (label : str)
| st_text_area (label : str)
| st_subheader (body : str)
| st_dataframe (df : DataFrame)
| st_download_button (label : str) (data : payload) (file_name mime : str)
| st_error (body : str).

(** A run: the calls made so far, and how it went on. *)
Definition run (A : Type) : Type := list st_call * res A.

Definition run_bind {A B} (m : run A) (k : A -> run B) : run B :=
  match m with
  | (calls, inl e) => (calls, inl e)
  | (calls, inr a) => let '(calls', r) := k a in (calls ++ calls', r)
  end.

Definition call (c : st_call) : run unit := ([c], inr tt).
Definition lift {A} (r : res A) : run A := ([], r).

Notation "'do!' x := m 'in' k" := (run_bind m (fun x => k))
  (at level 10, x name, m at level 100, k at level 200).
Notation "m ;;; k" := (run_bind m (fun _ => k))
  (at level 100, k at level 200, right associativity).

(** The three download buttons of lines 135-139, 144-148 and 162-166. *)
Definition csv_button (csv : bytes) : st_call :=
  st_download_button (py "Download CSV") (RawBytes csv)
    (py "resultado_parcelamento.csv") (py "text/csv").

Definition pdf_button (pdf_buffer : bytes) : st_call :=
  st_download_button (py "Download PDF") (RawBytes pdf_buffer)
    (py "resultado_parcelamento.pdf") (py "application/pdf").

Definition zip_button (zout : list (str * bytes)) : st_call :=
  st_download_button (py "Download ZIP Organizado") (ZipArchive zout)
    (py "relatorios_organizados.zip") (py "application/zip").

Definition loop_state : Type :=
  list result * list (str * bytes) * list (str * bytes).

Section Run.
Context `{Externals}.

(** Lines 13-19. *)
Fixpoint add_pages (text : str) (pages : list (Exception + option str)) : res str :=
  match pages with
  | [] => inr text
  | page :: pages' =>
    try! extracted := of_library page in
    let text := text ++ default [] extracted in
    let text := text ++ [10%N] in
    add_pages text pages'
  end.

Definition extract_text_from_bytes (file_bytes : bytes) : res str :=
  try! pages := of_library (PdfReader_pages file_bytes) in
  add_pages [] pages.

(** Lines 47-53: the cells of the table. *)
Definition pdf_table (results : list result) : list (list str) :=
  fold_left
    (λ data r, data ++ [[empresa r; sim_nao (rf r); sim_nao (pgfn r)]])
    results [[Empresa; Parcelamento_RF; Parcelamento_PGFN]].

(** Lines 39-68. *)
Definition generate_pdf (results : list result) : Exception + bytes :=
  reportlab_build (pdf_table results).

(** [df.to_csv(index=False)]: the row of the column names, then one row for
    each row of the frame. *)
Definition writerow (fields : list str) : str :=
  join [44%N] (map csv_field fields) ++ os_linesep.

Definition to_csv (df : DataFrame) : str :=
  writerow (columns df) ++ concat (map writerow (rows df)).

(** Lines 97-119: one turn of the loop over [zf.infolist()]. *)
Definition process_entry (mapping : gmap str str) (zf : ZipFile)
    (st : loop_state) (filename : str) : res loop_state :=
  let '(results, matched_files, unmatched_files) := st in
  if endswith (str_lower filename) (py ".pdf") then
    try! file_bytes := of_library (zf_read zf filename) in
    let empresa := resolve mapping filename in
    try! text := extract_text_from_bytes file_bytes in
    let '(rf_parc, pgfn_parc) := analyze_text text in
    let results :=
      results ++ [{| empresa := empresa; rf := rf_parc; pgfn := pgfn_parc |}] in
    if negb (bool_decide (empresa = Desconhecida)) then
      let new_name := empresa ++ py ".pdf" in
      inr (results, matched_files ++ [(new_name, file_bytes)], unmatched_files)
    else
      inr (results, matched_files, unmatched_files ++ [(filename, file_bytes)])
  else inr st.

Fixpoint process_entries (mapping : gmap str str) (zf : ZipFile)
    (st : loop_state) (names : list str) : res loop_state :=
  match names with
  | [] => inr st
  | filename :: names' =>
    try! st' := process_entry mapping zf st filename in
    process_entries mapping zf st' names'
  end.

Definition is_known (r : result) : bool :=
  negb (bool_decide (empresa r = Desconhecida)).

(** Line 122. *)
Definition known_results (results : list result) : list result :=
  filter (λ r, is_known r = true) results.

(** Lines 142-150: the download of the summary, or the message of the
    exception that its generation raised. *)
Definition pdf_step (known_results : list result) : st_call :=
  match generate_pdf known_results with
  | inr pdf_buffer => pdf_button pdf_buffer
  | inl e => st_error (py "Erro ao gerar PDF: " ++ exception_str e)
  end.

(** Lines 125-129. *)
Definition results_frame (known_results : list result) : DataFrame :=
  pd_DataFrame
    (map (λ r, [(Empresa, empresa r);
                (Parcelamento_RF, sim_nao (rf r));
                (Parcelamento_PGFN, sim_nao (pgfn r))]) known_results).

(** The name under which [zipfile] stores a member: the name is cut at its
    first null character, and [os.sep] is replaced by a slash where it is
    another character. *)
Definition zip_stored_name (name : str) : str :=
  let null_byte := find name [0%N] in
  let filename := if 0 <=? null_byte then slice name 0 null_byte else name in
  if negb (os_sep =? 47)%N
  then map (λ c, if (c =? os_sep)%N then 47%N else c) filename
  else filename.

(** [zout.writestr(name, data)]: the member is appended to the archive, or
    the call raises. *)
Definition writestr (zout : list (str * bytes)) (name : str) (data : bytes)
    : res (list (str * bytes)) :=
  let filename := zip_stored_name name in
  match zipfile_writestr_raises zout filename data with
  | Some e => inl (Propagated e)
  | None => inr (zout ++ [(filename, data)])
  end.

(** Lines 156-157 and 159-160: one of the two loops. *)
Fixpoint write_members (folder : str) (files : list (str * bytes))
    (zout : list (str * bytes)) : res (list (str * bytes)) :=
  match files with
  | [] => inr zout
  | f :: files' =>
    try! zout' := writestr zout (folder ++ f.1) f.2 in
    write_members folder files' zout'
  end.

(** Lines 153-160. *)
Definition write_archive (matched_files unmatched_files : list (str * bytes))
    : res (list (str * bytes)) :=
  try! zout := write_members (py "renomeados/") matched_files [] in
  write_members (py "nao_encontrados/") unmatched_files zout.

(** Lines 83-166, once both inputs are there. *)
Definition process (uploaded : bytes) (mapping_text : str) : run unit :=
  do! mapping := lift (parse_mapping mapping_text) in
  do! zf := lift (of_library (zipfile_ZipFile uploaded)) in
  do! st := lift (process_entries mapping zf ([], [], []) (infolist zf)) in
  let '(results, matched_files, unmatched_files) := st in
  let known_results := known_results results in
  let df := results_frame known_results in
  call (st_subheader (py "Resultados da Análise")) ;;;
  call (st_dataframe df) ;;;
  do! csv := lift (encode_utf8 (to_csv df)) in
  call (csv_button csv) ;;;
  call (pdf_step known_results) ;;;
  do! zout := lift (write_archive matched_files unmatched_files) in
  call (zip_button zout).

(** Lines 71-166.  [zip_file] is what the uploader returned, [None] or the
    uploaded bytes; an empty [mapping_text] is false. *)
Definition main (zip_file : option bytes) (mapping_text : str) : run unit :=
  call (st_title (py "Processador e Analisador de Situação Fiscal")) ;;;
  call (st_markdown (py "Faça upload de um arquivo ZIP com relatórios fiscais em PDF e cole o mapeamento abaixo.")) ;;;
  call (st_file_uploader (py "ZIP de relatórios PDF (arquivo do veri)")) ;;;
  call (st_text_area (py "Cole aqui o mapeamento (lista das empresas)")) ;;;
  match zip_file, mapping_text with
  | Some uploaded, _ :: _ => process uploaded mapping_text
  | _, _ => ([], inr tt)
  end.

End Run.

(** ** Vocabulary of the statements *)

(** [sub] occurs in [s] at index [i]. *)
Definition occurs_at (sub s : str) (i : nat) : Prop :=
  ∃ before after, s = before ++ sub ++ after ∧ length before = i.

Definition occurs (sub s : str) : Prop := ∃ i, occurs_at sub s i.

Definition first_occurrence (sub s : str) (i : nat) : Prop :=
  occurs_at sub s i ∧ ∀ j, occurs_at sub s j → (i ≤ j)%nat.

(** The characters of [s] from index [i] up to, not including, index [j];
    there is none when [j ≤ i]. *)
Definition substring (s : str) (i j : nat) : str := take (j - i) (drop i s).

(** The Receita Federal section of a text, as the specification words it:
    from the first title to the second, empty when a title is missing. *)
Definition is_rf_section (text sec : str) : Prop :=
  (∃ i j, first_occurrence rf_title text i ∧ first_occurrence pgfn_title text j
          ∧ sec = substring text i j)
  ∨ ((¬ occurs rf_title text ∨ ¬ occurs pgfn_title text) ∧ sec = []).

(** The PGFN section: from its title to the end of the text. *)
Definition is_pgfn_section (text sec : str) : Prop :=
  (∃ j, first_occurrence pgfn_title text j ∧ sec = drop j text)
  ∨ (¬ occurs pgfn_title text ∧ sec = []).

(** A run of exactly fourteen digits that occurs in [s] at index [i]. *)
Definition digits14_at `{Externals} (s k : str) (i : nat) : Prop :=
  occurs_at k s i ∧ length k = 14%nat ∧ Forall (λ c, isdecimal c = true) k.

Definition has_digits14 `{Externals} (s : str) : Prop := ∃ k i, digits14_at s k i.

(** The leftmost of them. *)
Definition first_digits14 `{Externals} (s k : str) : Prop :=
  ∃ i, digits14_at s k i ∧ ∀ k' j, digits14_at s k' j → (i ≤ j)%nat.

(** The entry that a line of the mapping text stands for: a line with exactly
    two fields gives the digits of the second and the stripped first. *)
Definition line_entry `{Externals} (line : str) : option (str * str) :=
  match split line TAB with
  | [name; cnpj] => Some (re_sub_nondigits cnpj, strip name)
  | _ => None
  end.

(** A processed report: an entry of the archive, the bytes read for it, and
    the dictionary appended to [results] for it. *)
Record report := {
  report_name : str;
  report_bytes : bytes;
  report_result : result
}.

Definition is_pdf_name `{Externals} (filename : str) : bool :=
  endswith (str_lower filename) (py ".pdf").

Definition is_report `{Externals} (mapping : gmap str str) (zf : ZipFile)
    (filename : str) (rep : report) : Prop :=
  report_name rep = filename ∧
  zf_read zf filename = inr (report_bytes rep) ∧
  ∃ text, extract_text_from_bytes (report_bytes rep) = inr text ∧
    report_result rep =
      {| empresa := resolve mapping filename;
         rf := (analyze_text text).1; pgfn := (analyze_text text).2 |}.

(** The processed reports of an archive: one for each entry whose name ends
    in ".pdf" whatever the case, in the order of the archive. *)
Definition processed `{Externals} (mapping : gmap str str) (zf : ZipFile)
    (reports : list report) : Prop :=
  Forall2 (is_report mapping zf)
    (filter (λ n, is_pdf_name n = true) (infolist zf)) reports.

Definition known (rep : report) : Prop :=
  empresa (report_result rep) ≠ Desconhecida.

#[global] Instance known_dec rep : Decision (known rep).
Proof. unfold known. apply _. Defined.

(** The row of a report in the table, the CSV and the PDF summary. *)
Definition table_row (r : result) : list str :=
  [empresa r; sim_nao (rf r); sim_nao (pgfn r)].

Definition header_row : list str := [Empresa; Parcelamento_RF; Parcelamento_PGFN].

(** The entries of [matched_files] and [unmatched_files]. *)
Definition matched_file (rep : report) : str * bytes :=
  (empresa (report_result rep) ++ py ".pdf", report_bytes rep).

Definition unmatched_file (rep : report) : str * bytes :=
  (report_name rep, report_bytes rep).

(** The two kinds of member of the output archive, under the names with
    which [zipfile] stores them. *)
Definition renamed_member `{Externals} (rep : report) : str * bytes :=
  (zip_stored_name (py "renomeados/" ++ empresa (report_result rep) ++ py ".pdf"),
   report_bytes rep).

Definition review_member `{Externals} (rep : report) : str * bytes :=
  (zip_stored_name (py "nao_encontrados/" ++ report_name rep), report_bytes rep).

(** The calls of lines 72-80, made on every run. *)
Definition inputs_page : list st_call :=
  [st_title (py "Processador e Analisador de Situação Fiscal");
   st_markdown (py "Faça upload de um arquivo ZIP com relatórios fiscais em PDF e cole o mapeamento abaixo.");
   st_file_uploader (py "ZIP de relatórios PDF (arquivo do veri)");
   st_text_area (py "Cole aqui o mapeamento (lista das empresas)")].




(** ** An environment for the examples

    ASCII digits and letters, the minimal quoting of the csv module and a line
    feed as line terminator: what CPython does on ASCII input.  The archive,
    the pages of each report and the outcome of reportlab are given. *)

Definition ascii_isdecimal (c : codepoint) : bool := ((48 <=? c) && (c <=? 57))%N.

Definition ascii_lower (s : str) : str :=
  map (λ c, if ((65 <=? c) && (c <=? 90))%N then (c + 32)%N else c) s.

Definition csv_quote_minimal (s : str) : str :=
  if existsb (λ c, (c =? 44) || (c =? 34) || (c =? 10) || (c =? 13))%N s
  then [34%N] ++ concat (map (λ c, if (c =? 34)%N then [34; 34]%N else [c]) s) ++ [34%N]
  else s.

(** [writestr] on a member name: [struct.error] when its UTF-8 encoding is
    longer than 65535 bytes. *)
Definition example_writestr_raises (zout : list (str * bytes)) (filename : str)
    (data : bytes) : option Exception :=
  match encode_utf8 filename with
  | inl _ => Some {| exception_str := py "surrogates not allowed" |}
  | inr encoded =>
    if (65535 <? N.of_nat (length encoded))%N
    then Some {| exception_str := py "'H' format requires 0 <= number <= 65535" |}
    else None
  end.

Definition example_externals (zf : ZipFile)
    (pages : bytes → Exception + list (Exception + option str))
    (build : list (list str) → Exception + bytes) : Externals :=
  {| isdecimal := ascii_isdecimal;
     str_lower := ascii_lower;
     zipfile_ZipFile := λ _, inr zf;
     PdfReader_pages := pages;
     reportlab_build := build;
     csv_field := csv_quote_minimal;
     os_linesep := [10%N];
     os_sep := 47%N;
     zipfile_writestr_raises := example_writestr_raises |}.

(** An archive with one report named after a CNPJ and one without. *)
Definition example_zip : ZipFile :=
  {| infolist := [py "11222333000144_report.pdf"; py "notes.txt"; py "relatorio.PDF"];
     zf_read := λ name,
       if bool_decide (name = py "11222333000144_report.pdf") then inr [1%N]
       else if bool_decide (name = py "relatorio.PDF") then inr [2%N]
       else inl {| exception_str := py "There is no item named in the archive" |} |}.

Definition example_pages (b : bytes) : Exception + list (Exception + option str) :=
  match b with
  | [1%N] => inr [inr (Some (rf_title ++ py " EM PARCELAMENTO")); inr (Some pgfn_title)]
  | _ => inr [inr None]
  end.

Definition example_mapping_text : str :=
  py "Acme Corp" ++ [TAB] ++ py "11.222.333/0001-44".

(** An archive whose only report has no CNPJ in its name. *)
Definition unknown_only_zip : ZipFile :=
  {| infolist := [py "relatorio.pdf"];
     zf_read := λ name, inr [2%N] |}.

Definition build_ok (data : list (list str)) : Exception + bytes := inr [37; 80; 68; 70]%N.

Definition build_fails (data : list (list str)) : Exception + bytes :=
  inl {| exception_str := py "layout error" |}.

Definition example_env : Externals :=
  example_externals example_zip example_pages build_ok.

(** The resolver as the sentence "if a 14-digit substring exists in the
    filename and is a key of the mapping, the resolver yields the company name
    mapped to it" reads: whichever run of fourteen digits is a key. *)
Definition resolves_any_run `{Externals} (filename : str) (mapping : gmap str str) : Prop :=
  ∀ k i name,
    digits14_at filename k i → mapping !! k = Some name →
    resolve mapping filename = name.

(** The example archive with a reportlab that fails, and the archive without
    a known company. *)
Definition failing_pdf_env : Externals :=
  example_externals example_zip example_pages build_fails.

Definition unknown_only_env : Externals :=
  example_externals unknown_only_zip example_pages build_ok.

(** ** The outputs of a run, told from its processed reports *)

(** The rows of the table: one for each known report, in order. *)
Definition known_rows (reports : list report) : list (list str) :=
  map (λ rep, table_row (report_result rep)) (filter known reports).

(** The frame with these rows: it has the three columns unless it is
    empty. *)
Definition rows_frame (table : list (list str)) : DataFrame :=
  {| columns := match table with [] => [] | _ :: _ => header_row end;
     rows := table |}.

(** The CSV text of these rows: a line for the column names and a line for
    each row; without a row, a line terminator alone. *)
Definition rows_csv `{Externals} (table : list (list str)) : str :=
  match table with
  | [] => os_linesep
  | _ :: _ => writerow header_row ++ concat (map writerow table)
  end.

(** What the PDF step shows when reportlab is given this table. *)
Definition pdf_call `{Externals} (table : list (list str)) : st_call :=
  match reportlab_build table with
  | inr pdf_buffer => pdf_button pdf_buffer
  | inl e => st_error (py "Erro ao gerar PDF: " ++ exception_str e)
  end.

(** The members of the output archive: the known reports under
    "renomeados/", then the others under "nao_encontrados/". *)
Definition archive_members `{Externals} (reports : list report) : list (str * bytes) :=
  map renamed_member (filter known reports) ++
  map review_member (filter (λ rep, ¬ known rep) reports).

(** The exception of the first member whose writing raises, when these
    members are written one after the other to an archive that holds
    [zout]. *)
Fixpoint write_error `{Externals} (zout members : list (str * bytes)) : option Exception :=
  match members with
  | [] => None
  | member :: members' =>
    match zipfile_writestr_raises zout member.1 member.2 with
    | Some e => Some e
    | None => write_error (zout ++ [member]) members'
    end
  end.

(** The table and the CSV download of a run, shown before the PDF step. *)
Definition table_calls (reports : list report) (csv : bytes) : list st_call :=
  inputs_page ++
  [st_subheader (py "Resultados da Análise");
   st_dataframe (rows_frame (known_rows reports));
   csv_button csv].

(** The sentence "for every run, each processed report whose resolved company
    is not the sentinel appears exactly once in the CSV rows, the PDF table
    rows, and as an entry under renomeados/" as it reads: every run offers the
    three outputs, with these rows and these members. *)
Definition every_report_in_every_output `{Externals}
    (uploaded : bytes) (mapping_text : str) : Prop :=
  ∀ mapping zf reports,
    parse_mapping mapping_text = inr mapping →
    zipfile_ZipFile uploaded = inr zf →
    processed mapping zf reports →
    ∃ csv pdf_buffer,
      encode_utf8 (rows_csv (known_rows reports)) = inr csv ∧
      reportlab_build (header_row :: known_rows reports) = inr pdf_buffer ∧
      (main (Some uploaded) mapping_text).1 =
        table_calls reports csv ++
        [pdf_button pdf_buffer; zip_button (archive_members reports)].

(** The sentence "if PDF summary generation raises an exception, the
    exception is caught and surfaced, and the CSV output and the reorganized
    ZIP output are still produced (the run does not abort)" as it reads: in
    every run that shows the message, the run returns and both downloads are
    offered. *)
Definition pdf_failure_does_not_abort `{Externals}
    (uploaded : bytes) (mapping_text : str) : Prop :=
  ∀ body, st_error body ∈ (main (Some uploaded) mapping_text).1 →
    (main (Some uploaded) mapping_text).2 = inr tt ∧
    (∃ csv, csv_button csv ∈ (main (Some uploaded) mapping_text).1) ∧
    (∃ members, zip_button members ∈ (main (Some uploaded) mapping_text).1).

(** An archive whose only entry has a name of 65524 bytes in UTF-8 (16380
    times U+1F600, then ".pdf"); the name of an entry of a ZIP archive takes
    at most 65535 bytes.  After "nao_encontrados/" it takes 65540. *)
Definition long_name : str := replicate (N.to_nat 16380) 128512%N ++ py ".pdf".

Definition long_name_zip : ZipFile :=
  {| infolist := [long_name];
     zf_read := λ name, inr [2%N] |}.

Definition long_name_env : Externals :=
  example_externals long_name_zip example_pages build_fails.

(** ** Vocabulary of the further properties *)

(** What one page adds to the extracted text: its text, or nothing when
    [extract_text()] returned [None], and a line feed. *)
Definition page_text (extracted : option str) : str := default [] extracted ++ [10%N].

(** An entry of the archive that can be read and whose text can be
    extracted. *)
Definition entry_readable `{Externals} (zf : ZipFile) (filename : str) : Prop :=
  ∃ file_bytes text,
    zf_read zf filename = inr file_bytes ∧
    extract_text_from_bytes file_bytes = inr text.

(** The calls that offer a file to the operator. *)
Definition is_download (c : st_call) : Prop :=
  match c with st_download_button _ _ _ _ => True | _ => False end.

(** A string that neither begins nor ends with white space. *)
Definition stripped (s : str) : Prop :=
  (∀ c s', s = c :: s' → isspace c = false) ∧
  (∀ c s', s = s' ++ [c] → isspace c = false).

(** * Properties of the classifier *)

Section TextSearch.
Implicit Types sub s : str.

Lemma startswith_prefix sub s : startswith sub s = true ↔ sub `prefix_of` s.
Proof.
  revert s. induction sub as [|a sub IH]; intros s; simpl.
  - split; [intros _; apply prefix_nil | done].
  - destruct s as [|b s].
    + split; [done | intros Hp; by apply prefix_nil_not in Hp].
    + rewrite andb_true_iff, N.eqb_eq, IH. split.
      * intros [-> Hp]. by apply prefix_cons.
      * intros Hp. split; [by eapply prefix_cons_inv_1 | by eapply prefix_cons_inv_2].
Qed.

Lemma occurs_at_0 sub s : occurs_at sub s 0 ↔ startswith sub s = true.
Proof.
  rewrite startswith_prefix. split.
  - intros (before & after & -> & Hlen). destruct before; [|done].
    by exists after.
  - intros [after ->]. by exists [], after.
Qed.

Lemma occurs_at_S sub c s i : occurs_at sub (c :: s) (S i) ↔ occurs_at sub s i.
Proof.
  split.
  - intros (before & after & Heq & Hlen). destruct before as [|b before]; [done|].
    simpl in *. injection Heq as -> ->. exists before, after. split; [done | lia].
  - intros (before & after & -> & Hlen). exists (c :: before), after.
    split; [done | simpl; lia].
Qed.

Lemma occurs_at_nil sub i : occurs_at sub [] i → sub = [] ∧ i = 0%nat.
Proof.
  intros (before & after & Heq & Hlen). symmetry in Heq.
  apply app_eq_nil in Heq as [-> Heq]. apply app_eq_nil in Heq as [-> _]. done.
Qed.

(** [find_from] returns [-1], or [i] plus the index of the first occurrence. *)
Lemma find_from_spec sub s i :
  find_from sub s i = -1 ∧ ¬ occurs sub s ∨
  ∃ k, find_from sub s i = i + Z.of_nat k ∧ first_occurrence sub s k.
Proof.
  revert i. induction s as [|c s IH]; intros i; simpl.
  - destruct sub as [|a sub]; simpl.
    + right. exists 0%nat. split; [lia|]. split; [|intros; lia].
      by exists [], [].
    + left. split; [done|]. intros [k Hk]. by apply occurs_at_nil in Hk as [? _].
  - destruct (startswith sub (c :: s)) eqn:Hsw.
    + right. exists 0%nat. split; [lia|]. split; [|intros; lia].
      by apply occurs_at_0.
    + destruct (IH (i + 1)) as [(Hf & Hno)|(k & Hf & Hocc & Hmin)].
      * left. split; [done|]. intros [[|k] Hk].
        -- apply occurs_at_0 in Hk. congruence.
        -- apply occurs_at_S in Hk. apply Hno. by exists k.
      * right. exists (S k). split; [lia|]. split.
        -- by apply occurs_at_S.
        -- intros [|j] Hj.
           ++ apply occurs_at_0 in Hj. congruence.
           ++ apply occurs_at_S in Hj. apply Hmin in Hj. lia.
Qed.

Lemma find_spec s sub :
  find s sub = -1 ∧ ¬ occurs sub s ∨
  ∃ k, find s sub = Z.of_nat k ∧ first_occurrence sub s k.
Proof.
  unfold find. destruct (find_from_spec sub s 0) as [?|(k & Hf & Hk)]; [by left|].
  right. exists k. split; [lia | done].
Qed.

Lemma first_occurrence_unique sub s i j :
  first_occurrence sub s i → first_occurrence sub s j → i = j.
Proof.
  intros [Hi Hmin_i] [Hj Hmin_j]. apply Hmin_i in Hj. apply Hmin_j in Hi. lia.
Qed.

Lemma str_in_occurs sub s : str_in sub s = true ↔ occurs sub s.
Proof.
  induction s as [|c s IH]; simpl.
  - rewrite <- occurs_at_0. split; [by exists 0%nat|].
    intros [k Hk]. by destruct (occurs_at_nil _ _ Hk) as [_ ->].
  - rewrite orb_true_iff, IH, <- occurs_at_0. split.
    + intros [H0|[k Hk]]; [by exists 0%nat|]. exists (S k). by apply occurs_at_S.
    + intros [[|k] Hk]; [by left|]. right. exists k. by apply occurs_at_S in Hk.
Qed.

Lemma occurs_at_length sub s i :
  occurs_at sub s i → (i + length sub ≤ length s)%nat.
Proof.
  intros (before & after & -> & <-). rewrite !length_app. lia.
Qed.

(** A slice between two indices of the text is the substring between them. *)
Lemma slice_substring s (i j : nat) :
  (i ≤ length s)%nat → (j ≤ length s)%nat →
  slice s (Z.of_nat i) (Z.of_nat j) = substring s i j.
Proof.
  intros Hi Hj. unfold slice, substring, slice_bound.
  destruct (Z.ltb_spec (Z.of_nat i) 0); [lia|].
  destruct (Z.ltb_spec (Z.of_nat j) 0); [lia|].
  rewrite !Z.min_l by lia. rewrite Nat2Z.id.
  f_equal. lia.
Qed.

Lemma slice_from_drop s (j : nat) :
  (j ≤ length s)%nat → slice_from s (Z.of_nat j) = drop j s.
Proof.
  intros Hj. unfold slice_from, slice_bound.
  destruct (Z.ltb_spec (Z.of_nat j) 0); [lia|].
  rewrite Z.min_l by lia. by rewrite Nat2Z.id.
Qed.

End TextSearch.

(** The section computed by the code is the section of the specification. *)
Lemma rf_section_spec text : is_rf_section text (rf_section text).
Proof.
  unfold rf_section.
  destruct (find_spec text rf_title) as [[-> Hno]|(i & -> & Hi)].
  { right. split; [by left | done]. }
  destruct (find_spec text pgfn_title) as [[-> Hno]|(j & -> & Hj)].
  { right. split; [by right | by rewrite andb_false_r]. }
  destruct (Z.eqb_spec (Z.of_nat i) (-1)); [lia|].
  destruct (Z.eqb_spec (Z.of_nat j) (-1)); [lia|]. simpl.
  left. exists i, j. split_and!; [done..|].
  apply slice_substring.
  - destruct Hi as [Hi _]. apply occurs_at_length in Hi. lia.
  - destruct Hj as [Hj _]. apply occurs_at_length in Hj. lia.
Qed.

Lemma pgfn_section_spec text : is_pgfn_section text (pgfn_section text).
Proof.
  unfold pgfn_section.
  destruct (find_spec text pgfn_title) as [[-> Hno]|(j & -> & Hj)].
  { by right. }
  destruct (Z.eqb_spec (Z.of_nat j) (-1)); [lia|]. simpl.
  left. exists j. split; [done|].
  apply slice_from_drop. destruct Hj as [Hj _]. apply occurs_at_length in Hj. lia.
Qed.

(** The two discarded checks leave both flags as they were. *)
Lemma analyze_text_flags text :
  analyze_text text =
    (str_in EM_PARCELAMENTO (rf_section text),
     str_in Pendencia_Parcelamento (pgfn_section text)).
Proof.
  unfold analyze_text.
  destruct (str_in EM_PARCELAMENTO _), (str_in Pendencia_Parcelamento _),
    (str_in BASE_INDISPONIVEL _), (str_in Parcelamento _),
    (str_in Nao_foram_detectadas _); reflexivity.
Qed.

(** C1.  For every text, [analyze_text] returns the pair of flags of the two
    sections: the Receita Federal section runs from the first occurrence of
    its title to the first occurrence of the PGFN title (empty when either
    title is missing), the PGFN section from the first occurrence of its
    title to the end of the text (empty when the title is missing); the first
    flag is true exactly when "EM PARCELAMENTO" occurs in the first section,
    the second exactly when "Pendência - Parcelamento" occurs in the second. *)
Theorem analyze_text_sections (text : str) :
  ∃ rf_sec pgfn_sec,
    is_rf_section text rf_sec ∧ is_pgfn_section text pgfn_sec ∧
    ((analyze_text text).1 = true ↔ occurs EM_PARCELAMENTO rf_sec) ∧
    ((analyze_text text).2 = true ↔ occurs Pendencia_Parcelamento pgfn_sec).
Proof.
  exists (rf_section text), (pgfn_section text).
  rewrite analyze_text_flags. simpl.
  split_and!; [apply rf_section_spec | apply pgfn_section_spec
              | apply str_in_occurs | apply str_in_occurs].
Qed.

(** C5.  [analyze_text] and the classifier without the "BASE INDISPONÍVEL" /
    "Parcelamento" check and the "Não foram detectadas ..." check return the
    same pair on every text. *)
Theorem analyze_text_dead_checks (text : str) :
  analyze_text text = analyze_text_simplified text.
Proof. unfold analyze_text_simplified. apply analyze_text_flags. Qed.

(** C8.  When both titles occur and the first Receita Federal title starts
    strictly after the first PGFN title, the Receita Federal section is empty
    and its flag is false. *)
Theorem reversed_titles_empty_section (text : str) (i j : nat) :
  first_occurrence rf_title text i →
  first_occurrence pgfn_title text j →
  (j < i)%nat →
  rf_section text = [] ∧ (analyze_text text).1 = false.
Proof.
  intros Hi Hj Hlt.
  assert (rf_section text = []) as Hsec.
  { destruct (rf_section_spec text) as [(i' & j' & Hi' & Hj' & ->)|[_ ->]]; [|done].
    rewrite (first_occurrence_unique _ _ _ _ Hi' Hi).
    rewrite (first_occurrence_unique _ _ _ _ Hj' Hj).
    unfold substring. by replace (j - i)%nat with 0%nat by lia. }
  split; [done|]. rewrite analyze_text_flags. simpl. by rewrite Hsec.
Qed.

Lemma find_first_occurrence (s sub : str) (k : nat) :
  find s sub = Z.of_nat k → first_occurrence sub s k.
Proof.
  intros Hf. destruct (find_spec s sub) as [[Hm _]|(k' & Hk' & Hocc)]; [lia|].
  by replace k with k' by lia.
Qed.

(** C8 on a text with the PGFN title first. *)
Lemma reversed_titles_witness :
  let text := pgfn_title ++ py " EM PARCELAMENTO " ++ rf_title in
  rf_section text = [] ∧ (analyze_text text).1 = false.
Proof.
  intros text.
  apply (reversed_titles_empty_section text 77 0).
  - apply find_first_occurrence. vm_compute. reflexivity.
  - apply find_first_occurrence. vm_compute. reflexivity.
  - lia.
Defined.

(** * Properties of the resolver *)

Section ResolverFacts.
Context `{Externals}.
Implicit Types s k : str.

Lemma forallb_Forall {A} (f : A → bool) (l : list A) :
  forallb f l = true ↔ Forall (λ x, f x = true) l.
Proof.
  induction l as [|x l IH]; simpl.
  - split; [by constructor | done].
  - rewrite andb_true_iff, IH. split.
    + intros [??]. by constructor.
    + by inversion 1.
Qed.

Lemma digits14_at_0 s k :
  digits14_at s k 0 ↔
  (14 ≤ length s)%nat ∧ k = take 14 s ∧ forallb isdecimal (take 14 s) = true.
Proof.
  unfold digits14_at. split.
  - intros ((before & after & -> & Hlen) & Hk & Hd).
    destruct before; [|done]. simpl.
    rewrite length_app, take_app_length' by done.
    split_and!; [lia | done | by apply forallb_Forall].
  - intros (Hlen & -> & Hd). split_and!.
    + exists [], (drop 14 s). simpl. by rewrite take_drop.
    + rewrite length_take. lia.
    + by apply forallb_Forall.
Qed.

Lemma digits14_at_S c s k i : digits14_at (c :: s) k (S i) ↔ digits14_at s k i.
Proof. unfold digits14_at. by rewrite occurs_at_S. Qed.

Lemma re_search_d14_cons c s :
  re_search_d14 (c :: s) =
    if (14 <=? length (c :: s))%nat && forallb isdecimal (take 14 (c :: s))
    then Some (take 14 (c :: s)) else re_search_d14 s.
Proof. reflexivity. Qed.

(** [re.search] finds nothing when there is no run of fourteen digits, and
    the leftmost run otherwise. *)
Lemma re_search_d14_spec s :
  re_search_d14 s = None ∧ ¬ has_digits14 s ∨
  ∃ k, re_search_d14 s = Some k ∧ first_digits14 s k.
Proof.
  induction s as [|c s IH].
  - left. split; [done|]. intros (k & i & Hocc & Hlen & _).
    apply occurs_at_nil in Hocc as [-> _]. done.
  - rewrite re_search_d14_cons.
    destruct ((14 <=? length (c :: s))%nat && forallb isdecimal (take 14 (c :: s)))
      eqn:Hhere.
    + right. exists (take 14 (c :: s)). split; [done|].
      apply andb_true_iff in Hhere as [Hlen Hd]. apply Nat.leb_le in Hlen.
      exists 0%nat. split; [by apply digits14_at_0 | intros; lia].
    + assert (∀ k, ¬ digits14_at (c :: s) k 0) as Hnot0.
      { intros k (Hlen & _ & Hd)%digits14_at_0.
        apply Nat.leb_le in Hlen. rewrite Hlen, Hd in Hhere. done. }
      destruct IH as [[Hnone Hno]|(k & Hsome & i & Hi & Hmin)].
      * left. split; [done|]. intros (k & [|i] & Hk).
        -- by apply Hnot0 in Hk.
        -- rewrite digits14_at_S in Hk. apply Hno. by exists k, i.
      * right. exists k. split; [done|]. exists (S i). split.
        -- by rewrite digits14_at_S.
        -- intros k' [|j] Hj.
           ++ by apply Hnot0 in Hj.
           ++ rewrite digits14_at_S in Hj. apply Hmin in Hj. lia.
Qed.

Lemma first_digits14_unique s k k' :
  first_digits14 s k → first_digits14 s k' → k = k'.
Proof.
  intros (i & Hi & Hmin) (i' & Hi' & Hmin').
  assert (i = i') as <-.
  { apply Hmin in Hi' as ?. apply Hmin' in Hi as ?. lia. }
  destruct Hi as ((b1 & a1 & Heq1 & Hb1) & Hl1 & _).
  destruct Hi' as ((b2 & a2 & Heq2 & Hb2) & Hl2 & _).
  rewrite Heq1 in Heq2.
  apply app_inj_1 in Heq2 as [_ Heq2]; [|congruence].
  apply app_inj_1 in Heq2 as [? _]; [done | congruence].
Qed.

Lemma re_search_first_digits14 s k :
  re_search_d14 s = Some k ↔ first_digits14 s k.
Proof.
  destruct (re_search_d14_spec s) as [[Hnone Hno]|(k0 & Hsome & Hfirst)].
  - rewrite Hnone. split; [done|]. intros (i & Hi & _).
    destruct Hno. by exists k, i.
  - rewrite Hsome. split.
    + by intros [= <-].
    + intros Hk. f_equal. by eapply first_digits14_unique.
Qed.

Lemma re_search_none s : re_search_d14 s = None ↔ ¬ has_digits14 s.
Proof.
  destruct (re_search_d14_spec s) as [[Hnone Hno]|(k0 & Hsome & i & Hi & _)].
  - by rewrite Hnone.
  - rewrite Hsome. split; [done|]. intros Hno. destruct Hno. by exists k0, i.
Qed.

(** C2, amended.  A file name without a run of fourteen digits resolves to
    "Desconhecida"; when the leftmost run of fourteen digits of the file name
    is a key of the mapping, the file name resolves to the name mapped to
    it; and when the leftmost run is not a key, the file name resolves to
    "Desconhecida", whatever runs start further right: they are never looked
    up. *)
Theorem resolve_leftmost_run (filename : str) (mapping : gmap str str) :
  (¬ has_digits14 filename → resolve mapping filename = Desconhecida) ∧
  (∀ k name,
     first_digits14 filename k → mapping !! k = Some name →
     resolve mapping filename = name) ∧
  (∀ k,
     first_digits14 filename k → mapping !! k = None →
     resolve mapping filename = Desconhecida).
Proof.
  unfold resolve. split_and!.
  - intros Hno. apply re_search_none in Hno. by rewrite Hno.
  - intros k name Hk Hname. apply re_search_first_digits14 in Hk.
    rewrite Hk. simpl. by rewrite Hname.
  - intros k Hk Hnone. apply re_search_first_digits14 in Hk.
    rewrite Hk. simpl. by rewrite Hnone.
Qed.

(** C9.  When a file name resolves to a name other than "Desconhecida", the
    key that was looked up is the leftmost run of fourteen digits of the file
    name, so it has exactly fourteen characters and all of them are digits;
    and a key that is not fourteen digits is the identifier of no file name,
    so that the entry under it changes no resolution. *)
Theorem matched_key_has_14_digits (mapping_text : str) (mapping : gmap str str)
    (filename : str) :
  parse_mapping mapping_text = inr mapping →
  (resolve mapping filename ≠ Desconhecida →
   ∃ k, first_digits14 filename k ∧
        mapping !! k = Some (resolve mapping filename) ∧
        length k = 14%nat ∧ Forall (λ c, isdecimal c = true) k) ∧
  (∀ k, ¬ (length k = 14%nat ∧ Forall (λ c, isdecimal c = true) k) →
        ¬ first_digits14 filename k ∧
        resolve (delete k mapping) filename = resolve mapping filename).
Proof.
  intros _. split.
  - unfold resolve.
    destruct (re_search_d14 filename) as [k|] eqn:Hsearch; simpl; [|done].
    destruct (mapping !! k) as [name|] eqn:Hname; [|done].
    intros _. exists k. apply re_search_first_digits14 in Hsearch as Hfirst.
    destruct Hfirst as (i & (_ & Hlen & Hd) & _).
    split_and!; [by apply re_search_first_digits14 | done..].
  - intros k Hk.
    assert (¬ first_digits14 filename k) as Hnot.
    { intros (i & (_ & Hlen & Hd) & _). by apply Hk. }
    split; [done|]. unfold resolve.
    destruct (re_search_d14 filename) as [k'|] eqn:Hsearch; simpl; [|done].
    rewrite lookup_delete_ne; [done|].
    intros <-. by apply Hnot, re_search_first_digits14.
Qed.

Lemma str_in_char (c : codepoint) s : str_in [c] s = true ↔ c ∈ s.
Proof.
  induction s as [|d s IH]; simpl.
  - split; [done | by intros ?%elem_of_nil].
  - rewrite orb_true_iff, IH, andb_true_r, N.eqb_eq, elem_of_cons. tauto.
Qed.

Lemma split_from_no_sep sep cur s : sep ∉ s → split_from sep cur s = [cur ++ s].
Proof.
  revert cur. induction s as [|c s IH]; intros cur Hnot; simpl.
  - by rewrite app_nil_r.
  - apply not_elem_of_cons in Hnot as [Hne Hnot].
    destruct (N.eqb_spec c sep) as [->|_]; [done|].
    by rewrite IH, <- app_assoc.
Qed.

Lemma split_from_nonempty sep cur s : (1 ≤ length (split_from sep cur s))%nat.
Proof.
  revert cur. induction s as [|c s IH]; intros cur; simpl; [lia|].
  destruct (c =? sep)%N; simpl; [lia | apply IH].
Qed.

Lemma split_from_sep sep cur s :
  sep ∈ s → (2 ≤ length (split_from sep cur s))%nat.
Proof.
  revert cur. induction s as [|c s IH]; intros cur Hin; simpl.
  - by apply elem_of_nil in Hin.
  - destruct (N.eqb_spec c sep) as [->|Hne].
    + simpl. pose proof (split_from_nonempty sep [] s). lia.
    + apply IH. apply elem_of_cons in Hin as [->|Hin]; done.
Qed.

(** A line without a tab stands for no entry. *)
Lemma line_entry_no_tab line : str_in [TAB] line = false → line_entry line = None.
Proof.
  intros Hno. unfold line_entry, split. rewrite split_from_no_sep; [done|].
  intros Hin%str_in_char. congruence.
Qed.

(** The loop of lines 85-88 on lines that have at most one tab each: no
    error, and the entries are written in the order of the lines. *)
Lemma parse_lines_single_tabs mapping lines :
  Forall (λ line, (length (split line TAB) ≤ 2)%nat) lines →
  parse_lines mapping lines
  = inr (list_to_map (reverse (omap line_entry lines)) ∪ mapping).
Proof.
  intros Hall. revert mapping.
  induction Hall as [|line lines Hline _ IH]; intros mapping; simpl.
  - by rewrite (left_id_L ∅ (∪)).
  - destruct (str_in [TAB] line) eqn:Htab.
    + apply str_in_char in Htab. apply (split_from_sep _ []) in Htab.
      unfold line_entry. fold (split line TAB) in Htab.
      destruct (split line TAB) as [|name [|cnpj [|? ?]]]; simpl in *; try lia.
      rewrite IH, reverse_cons, list_to_map_app. simpl.
      rewrite <- (assoc_L (∪)). f_equal.
      by rewrite insert_empty, <- insert_union_singleton_l.
    + rewrite line_entry_no_tab by done. apply IH.
Qed.

(** Such a text is parsed without error; every entry of the result comes from
    a line with a tab, and for every key the last line that has it wins. *)
Lemma parse_mapping_single_tabs mapping_text :
  Forall (λ line, (length (split line TAB) ≤ 2)%nat) (splitlines mapping_text) →
  ∃ mapping, parse_mapping mapping_text = inr mapping ∧
    (∀ k v, mapping !! k = Some v →
       ∃ line, line ∈ splitlines mapping_text ∧ line_entry line = Some (k, v)) ∧
    (∀ before line after k v,
       splitlines mapping_text = before ++ line :: after →
       line_entry line = Some (k, v) →
       Forall (λ l, ∀ v', line_entry l ≠ Some (k, v')) after →
       mapping !! k = Some v).
Proof.
  intros Hall. unfold parse_mapping. rewrite parse_lines_single_tabs by done.
  eexists. split; [done|]. rewrite (right_id_L ∅ (∪)). split.
  - intros k v Hkv%elem_of_list_to_map_2.
    rewrite elem_of_reverse in Hkv.
    apply list_elem_of_omap in Hkv as (line & Hin & Hentry).
    by exists line.
  - intros before line after k v -> Hentry Hafter.
    rewrite omap_app. simpl. rewrite Hentry.
    rewrite reverse_app, reverse_cons, <- app_assoc, list_to_map_app.
    rewrite lookup_union_r.
    + simpl. by rewrite lookup_insert_eq.
    + apply not_elem_of_list_to_map_1.
      intros ((k' & v') & Heq & Hin)%list_elem_of_fmap.
      rewrite elem_of_reverse in Hin. simpl in Heq. subst k'.
      apply list_elem_of_omap in Hin as (l & Hl & Hlv).
      rewrite Forall_forall in Hafter. by apply (Hafter l Hl v').
Qed.

(** C3, at a line with two tabs: the unpacking of [line.split('\t')] into two
    names raises, whatever the digits of the Unicode database are. *)
Theorem parse_mapping_two_tabs_raises :
  parse_mapping (py "A" ++ [TAB] ++ py "B" ++ [TAB] ++ py "C")
  = inl ValueError_unpack.
Proof. reflexivity. Qed.

End ResolverFacts.

(** The search depends on the digits of the Unicode database only at the
    characters of the file name, so what the examples show with ASCII digits
    holds with any database that has the same digits among them. *)
Lemma re_search_d14_agree (E1 E2 : Externals) (s : str) :
  (∀ c, c ∈ s → @isdecimal E1 c = @isdecimal E2 c) →
  @re_search_d14 E1 s = @re_search_d14 E2 s.
Proof.
  induction s as [|c s IH]; intros Hagree; [done|].
  rewrite !re_search_d14_cons.
  assert (forallb (@isdecimal E1) (take 14 (c :: s))
          = forallb (@isdecimal E2) (take 14 (c :: s))) as ->.
  { assert (∀ d, d ∈ take 14 (c :: s) → d ∈ c :: s) as Hin.
    { intros d (i & Hi & _)%elem_of_take. by eapply list_elem_of_lookup_2. }
    induction (take 14 (c :: s)) as [|d l IHl]; [done|]. simpl.
    rewrite Hagree by (apply Hin; left).
    rewrite IHl; [done|]. intros d' Hd'. apply Hin. by right. }
  rewrite IH; [done|]. intros d Hd. apply Hagree. by right.
Qed.

Lemma resolve_agree (E1 E2 : Externals) (mapping : gmap str str) (filename : str) :
  (∀ c, c ∈ filename → @isdecimal E1 c = @isdecimal E2 c) →
  @resolve E1 mapping filename = @resolve E2 mapping filename.
Proof. intros Hagree. unfold resolve. by rewrite (re_search_d14_agree E1 E2). Qed.

(** C2, amended, on a name without digits, on a name that starts with a
    CNPJ of the mapping, and on a name whose second run is a key. *)
Lemma resolve_leftmost_run_witness :
  resolve (H := example_env) ∅ (py "relatorio.pdf") = Desconhecida ∧
  resolve (H := example_env) {[ py "11222333000144" := py "Acme Corp" ]}
    (py "11222333000144_report.pdf") = py "Acme Corp" ∧
  resolve (H := example_env) {[ py "12345678901234" := py "Acme" ]}
    (py "012345678901234.pdf") = Desconhecida.
Proof.
  split_and!.
  - apply (resolve_leftmost_run (H := example_env)).
    apply re_search_none. vm_compute. reflexivity.
  - apply (resolve_leftmost_run (H := example_env)) with (k := py "11222333000144").
    + apply re_search_first_digits14. vm_compute. reflexivity.
    + vm_compute. reflexivity.
  - apply (proj2 (proj2 (resolve_leftmost_run (H := example_env) _ _)))
      with (k := py "01234567890123").
    + apply re_search_first_digits14. vm_compute. reflexivity.
    + vm_compute. reflexivity.
Defined.

(** C2 as stated fails: in "012345678901234.pdf" the run "12345678901234"
    starts at index 1 and is a key of the mapping, yet the file name resolves
    to "Desconhecida", because only the run at index 0 is looked up. *)
Lemma resolve_later_run_counterexample :
  ¬ resolves_any_run (H := example_env) (py "012345678901234.pdf")
      {[ py "12345678901234" := py "Acme" ]}.
Proof.
  intros Hclaim.
  specialize (Hclaim (py "12345678901234") 1%nat (py "Acme")).
  assert (resolve (H := example_env) {[ py "12345678901234" := py "Acme" ]}
            (py "012345678901234.pdf") = Desconhecida) as Hres
    by (vm_compute; reflexivity).
  rewrite Hres in Hclaim. 
  assert (Desconhecida = py "Acme") as Habs; [|by vm_compute in Habs].
  apply Hclaim.
  - split_and!.
    + by exists (py "0"), (py ".pdf").
    + reflexivity.
    + apply forallb_Forall. reflexivity.
  - vm_compute. reflexivity.
Qed.

(** C9 on the mapping of the example: the twelve digits "112223330001" are
    no file name's identifier. *)
Lemma matched_key_has_14_digits_witness :
  ∃ mapping,
    parse_mapping (H := example_env) example_mapping_text = inr mapping ∧
    mapping !! py "11222333000144" = Some (py "Acme Corp") ∧
    resolve (H := example_env) (delete (py "112223330001") mapping)
      (py "11222333000144_report.pdf") = py "Acme Corp".
Proof.
  exists {[ py "11222333000144" := py "Acme Corp" ]}.
  assert (parse_mapping (H := example_env) example_mapping_text
          = inr {[ py "11222333000144" := py "Acme Corp" ]}) as Hparse
    by (vm_compute; reflexivity).
  split_and!; [done | by vm_compute |].
  destruct (matched_key_has_14_digits (H := example_env) example_mapping_text
              {[ py "11222333000144" := py "Acme Corp" ]}
              (py "11222333000144_report.pdf") Hparse) as [_ Hother].
  destruct (Hother (py "112223330001")) as [_ ->].
  - intros [Hlen _]. vm_compute in Hlen. discriminate.
  - vm_compute. reflexivity.
Defined.

(** * Properties of a run *)

Section RunFacts.
Context `{Externals}.

Lemma fold_left_snoc {A B} (f : A → B) (l : list A) (acc : list B) :
  fold_left (λ acc x, acc ++ [f x]) l acc = acc ++ map f l.
Proof.
  revert acc. induction l as [|x l IH]; intros acc; simpl.
  - by rewrite app_nil_r.
  - by rewrite IH, <- app_assoc.
Qed.

(** The table of the PDF summary: the header row, then a row for each
    result. *)
Lemma pdf_table_rows (results : list result) :
  pdf_table results = header_row :: map table_row results.
Proof. apply (fold_left_snoc table_row results [header_row]). Qed.

Lemma write_error_app zout members1 members2 :
  write_error zout (members1 ++ members2) =
    match write_error zout members1 with
    | Some e => Some e
    | None => write_error (zout ++ members1) members2
    end.
Proof.
  revert zout. induction members1 as [|member members1 IH]; intros zout; simpl.
  - by rewrite app_nil_r.
  - destruct (zipfile_writestr_raises zout member.1 member.2); [done|].
    by rewrite IH, <- app_assoc.
Qed.

(** One loop of lines 156-160: the members are appended under the names with
    which they are stored, up to the first one whose writing raises. *)
Lemma write_members_stored folder files zout :
  write_members folder files zout =
    let members :=
      map (λ f : str * bytes, (zip_stored_name (folder ++ f.1), f.2)) files in
    match write_error zout members with
    | Some e => inl (Propagated e)
    | None => inr (zout ++ members)
    end.
Proof.
  revert zout. induction files as [|f files IH]; intros zout.
  - simpl. by rewrite app_nil_r.
  - cbn [write_members map]. unfold writestr. cbv zeta.
    cbn [write_error fst snd].
    destruct (zipfile_writestr_raises zout (zip_stored_name (folder ++ f.1)) f.2);
      cbn [res_bind]; [done|].
    rewrite IH. cbn zeta.
    destruct (write_error _ _); [done|]. by rewrite <- app_assoc.
Qed.

Lemma write_archive_reports (reports : list report) :
  write_archive (map matched_file (filter known reports))
                (map unmatched_file (filter (λ rep, ¬ known rep) reports)) =
    match write_error [] (archive_members reports) with
    | Some e => inl (Propagated e)
    | None => inr (archive_members reports)
    end.
Proof.
  unfold write_archive, archive_members.
  rewrite write_members_stored, write_error_app. cbn zeta.
  rewrite !map_map.
  change (map (λ x, (zip_stored_name (py "renomeados/" ++ (matched_file x).1),
                     (matched_file x).2)) (filter known reports))
    with (map renamed_member (filter known reports)).
  destruct (write_error [] (map renamed_member (filter known reports)));
    cbn [res_bind]; [done|].
  rewrite write_members_stored. cbn zeta. rewrite !map_map. simpl.
  change (map (λ x, (zip_stored_name (py "nao_encontrados/" ++ (unmatched_file x).1),
                     (unmatched_file x).2)) (filter (λ rep, ¬ known rep) reports))
    with (map review_member (filter (λ rep, ¬ known rep) reports)).
  by destruct (write_error _ _).
Qed.

(** The frame of lines 125-129: a row for each known result, and the three
    columns unless there is no row. *)
Lemma results_frame_rows (rs : list result) :
  rows (results_frame rs) = map table_row rs ∧
  columns (results_frame rs) = match rs with [] => [] | _ => header_row end.
Proof.
  unfold results_frame, pd_DataFrame. simpl.
  set (mk := λ r : result, [(Empresa, empresa r);
    (Parcelamento_RF, sim_nao (rf r)); (Parcelamento_PGFN, sim_nao (pgfn r))]).
  assert (∀ l, fold_left (λ cols r, fold_left add_key (map fst r) cols)
                 (map mk l) header_row = header_row) as Hkeep.
  { induction l as [|r l IH]; [done|]. simpl. exact IH. }
  destruct rs as [|r rs]; [done|].
  assert (fold_left (λ cols r, fold_left add_key (map fst r) cols)
            (map mk (r :: rs)) [] = header_row) as ->.
  { simpl. apply Hkeep. }
  split; [|done]. rewrite map_map. apply map_ext. intros r'. reflexivity.
Qed.

Lemma process_entry_other mapping zf st filename :
  is_pdf_name filename = false → process_entry mapping zf st filename = inr st.
Proof.
  intros Hpdf. destruct st as [[rs ms] us]. unfold process_entry.
  unfold is_pdf_name in Hpdf. by rewrite Hpdf.
Qed.

(** One turn of the loop on a report: a dictionary is appended to [results],
    and the file goes to exactly one of the two lists. *)
Lemma process_entry_pdf mapping zf rs ms us filename st' :
  is_pdf_name filename = true →
  process_entry mapping zf (rs, ms, us) filename = inr st' →
  ∃ rep, is_report mapping zf filename rep ∧
    st' = (rs ++ [report_result rep],
           ms ++ map matched_file (filter known [rep]),
           us ++ map unmatched_file (filter (λ r, ¬ known r) [rep])).
Proof.
  intros Hpdf. unfold process_entry. unfold is_pdf_name in Hpdf. rewrite Hpdf.
  destruct (zf_read zf filename) as [e|file_bytes] eqn:Hread;
    cbn [of_library res_bind]; [done|].
  destruct (extract_text_from_bytes file_bytes) as [e|text] eqn:Htext;
    cbn [res_bind]; [done|].
  destruct (analyze_text text) as [rf_parc pgfn_parc] eqn:Hflags.
  set (dict := {| empresa := resolve mapping filename; rf := rf_parc; pgfn := pgfn_parc |}).
  set (rep := {| report_name := filename; report_bytes := file_bytes;
                 report_result := dict |}).
  assert (is_report mapping zf filename rep) as Hrep.
  { split; [reflexivity|]. split; [exact Hread|].
    exists text. split; [exact Htext|]. by rewrite Hflags. }
  assert (known rep ↔ resolve mapping filename ≠ Desconhecida) as Hknown by done.
  intros Hst. exists rep. split; [done|].
  destruct (decide (resolve mapping filename = Desconhecida)) as [Heq|Hne].
  - rewrite bool_decide_eq_true_2 in Hst by done. cbn [negb] in Hst.
    injection Hst as <-.
    rewrite (filter_cons_False known), filter_cons_True by (rewrite Hknown; tauto).
    rewrite !filter_nil. cbn [map]. by rewrite app_nil_r.
  - rewrite bool_decide_eq_false_2 in Hst by done. cbn [negb] in Hst.
    injection Hst as <-.
    rewrite (filter_cons_True known), filter_cons_False by (rewrite Hknown; tauto).
    rewrite !filter_nil. cbn [map]. by rewrite app_nil_r.
Qed.

Lemma process_entries_cons mapping zf st filename names :
  process_entries mapping zf st (filename :: names) =
    try! st' := process_entry mapping zf st filename in
    process_entries mapping zf st' names.
Proof. reflexivity. Qed.

(** The loop: the processed reports are the entries named "*.pdf", in the
    order of the archive; every one of them has its dictionary in [results],
    the known ones are in [matched_files] and the others in
    [unmatched_files]. *)
Lemma process_entries_spec mapping zf names rs ms us st' :
  process_entries mapping zf (rs, ms, us) names = inr st' →
  ∃ reports,
    Forall2 (is_report mapping zf) (filter (λ n, is_pdf_name n = true) names) reports ∧
    st' = (rs ++ map report_result reports,
           ms ++ map matched_file (filter known reports),
           us ++ map unmatched_file (filter (λ r, ¬ known r) reports)).
Proof.
  revert rs ms us. induction names as [|filename names IH]; intros rs ms us.
  - intros [= <-]. exists []. split; [constructor|]. simpl. by rewrite !app_nil_r.
  - rewrite process_entries_cons. destruct (is_pdf_name filename) eqn:Hpdf.
    + destruct (process_entry mapping zf (rs, ms, us) filename) as [e|st1] eqn:Hone;
        cbn [res_bind]; [done|].
      apply process_entry_pdf in Hone as (rep & Hrep & ->); [|done].
      intros (reports & Hall & ->)%IH. exists (rep :: reports). split.
      * rewrite filter_cons_True by done. by constructor.
      * rewrite (filter_cons known rep reports),
          (filter_cons (λ r, ¬ known r) rep reports),
          (filter_cons known rep []), (filter_cons (λ r, ¬ known r) rep []),
          !filter_nil.
        destruct (decide (known rep)), (decide (¬ known rep)); simpl;
          try tauto; by rewrite <- ?app_assoc, ?app_nil_r.
    + rewrite process_entry_other by done. cbn [res_bind].
      intros (reports & Hall & ->)%IH. exists reports. split; [|done].
      rewrite filter_cons_False; [done|]. by rewrite Hpdf.
Qed.

(** The known results are the dictionaries of the known reports. *)
Lemma known_results_reports (reports : list report) :
  known_results (map report_result reports)
  = map report_result (filter known reports).
Proof.
  unfold known_results. induction reports as [|rep reports IH]; [done|].
  simpl. rewrite (filter_cons known), filter_cons, IH.
  unfold is_known, known.
  destruct (decide (empresa (report_result rep) ≠ Desconhecida)) as [Hne|Heq].
  - rewrite bool_decide_eq_false_2 by done. by rewrite decide_True.
  - apply dec_stable in Heq. rewrite bool_decide_eq_true_2 by done.
    by rewrite decide_False.
Qed.

(** The loop returns on an archive whose ".pdf" entries all have their
    report. *)
Lemma process_entry_report mapping zf rs ms us filename rep :
  is_pdf_name filename = true →
  is_report mapping zf filename rep →
  process_entry mapping zf (rs, ms, us) filename =
    inr (rs ++ [report_result rep],
         ms ++ map matched_file (filter known [rep]),
         us ++ map unmatched_file (filter (λ r, ¬ known r) [rep])).
Proof.
  intros Hpdf Hrep.
  destruct (process_entry mapping zf (rs, ms, us) filename) as [e|st'] eqn:Hone.
  - exfalso. destruct Hrep as (_ & Hread & text & Htext & _).
    revert Hone. unfold process_entry. unfold is_pdf_name in Hpdf.
    rewrite Hpdf, Hread. cbn [of_library res_bind]. rewrite Htext.
    cbn [res_bind]. by destruct (analyze_text text), (negb _).
  - destruct (process_entry_pdf _ _ _ _ _ _ _ Hpdf Hone) as (rep' & Hrep' & ->).
    assert (rep' = rep) as ->; [|done].
    destruct Hrep as (Hn & Hread & text & Htext & Hres).
    destruct Hrep' as (Hn' & Hread' & text' & Htext' & Hres').
    destruct rep as [n b r], rep' as [n' b' r']. simpl in *.
    assert (b' = b) as -> by congruence.
    assert (text' = text) as -> by congruence.
    congruence.
Qed.

Lemma process_entries_reports mapping zf names rs ms us reports :
  Forall2 (is_report mapping zf) (filter (λ n, is_pdf_name n = true) names) reports →
  process_entries mapping zf (rs, ms, us) names =
    inr (rs ++ map report_result reports,
         ms ++ map matched_file (filter known reports),
         us ++ map unmatched_file (filter (λ r, ¬ known r) reports)).
Proof.
  revert rs ms us reports.
  induction names as [|filename names IH]; intros rs ms us reports.
  - intros ->%Forall2_nil_inv_l. simpl. by rewrite !app_nil_r.
  - rewrite process_entries_cons, filter_cons.
    destruct (decide (is_pdf_name filename = true)) as [Hpdf|Hno].
    + intros (rep & reports' & Hrep & Hall & ->)%Forall2_cons_inv_l.
      rewrite (process_entry_report _ _ _ _ _ _ _ Hpdf Hrep). cbn [res_bind].
      rewrite (IH _ _ _ _ Hall).
      rewrite (filter_cons known rep reports'),
        (filter_cons (λ r, ¬ known r) rep reports'),
        (filter_cons known rep []), (filter_cons (λ r, ¬ known r) rep []),
        !filter_nil.
      destruct (decide (known rep)), (decide (¬ known rep)); simpl;
        try tauto; by rewrite <- ?app_assoc, ?app_nil_r.
    + rewrite process_entry_other by (by destruct (is_pdf_name filename)).
      cbn [res_bind]. apply IH.
Qed.

(** Without a known result the frame has no column, and its CSV is a line
    terminator alone; with one, the CSV starts with the row of the three
    column names. *)
Lemma to_csv_no_known_result : to_csv (results_frame []) = os_linesep.
Proof. unfold to_csv, writerow. simpl. apply app_nil_r. Qed.

Lemma to_csv_known_results (r : result) (rs : list result) :
  to_csv (results_frame (r :: rs))
  = writerow header_row ++ concat (map (λ r, writerow (table_row r)) (r :: rs)).
Proof.
  unfold to_csv. destruct (results_frame_rows (r :: rs)) as [-> ->].
  by rewrite map_map.
Qed.

(** The frame, the CSV text and the PDF step of the known results are those
    of their rows. *)
Lemma results_frame_table (rs : list result) :
  results_frame rs = rows_frame (map table_row rs).
Proof.
  destruct (results_frame_rows rs) as [Hrows Hcols].
  destruct (results_frame rs) as [cols rws]. simpl in *. subst.
  unfold rows_frame. by destruct rs.
Qed.

Lemma to_csv_table (rs : list result) :
  to_csv (results_frame rs) = rows_csv (map table_row rs).
Proof.
  destruct rs as [|r rs]; [apply to_csv_no_known_result|].
  rewrite to_csv_known_results. simpl. by rewrite map_map.
Qed.


Lemma pdf_step_table (rs : list result) :
  pdf_step rs = pdf_call (header_row :: map table_row rs).
Proof. unfold pdf_step, pdf_call, generate_pdf. by rewrite pdf_table_rows. Qed.

Lemma known_rows_results (reports : list report) :
  map table_row (known_results (map report_result reports)) = known_rows reports.
Proof. unfold known_rows. by rewrite known_results_reports, map_map. Qed.

(** What [process] does on an archive with these processed reports: the
    table and the CSV, unless the CSV cannot be encoded; then the PDF step;
    then the archive, unless the writing of a member raises. *)
Lemma process_of_reports uploaded mapping_text mapping zf reports :
  parse_mapping mapping_text = inr mapping →
  zipfile_ZipFile uploaded = inr zf →
  processed mapping zf reports →
  process uploaded mapping_text =
    let shown :=
      [st_subheader (py "Resultados da Análise");
       st_dataframe (rows_frame (known_rows reports))] in
    match encode_utf8 (rows_csv (known_rows reports)) with
    | inl e => (shown, inl e)
    | inr csv =>
      let offered :=
        shown ++ [csv_button csv; pdf_call (header_row :: known_rows reports)] in
      match write_error [] (archive_members reports) with
      | Some e' => (offered, inl (Propagated e'))
      | None => (offered ++ [zip_button (archive_members reports)], inr tt)
      end
    end.
Proof.
  intros Hparse Hzip Hreports. unfold process.
  rewrite Hparse, Hzip. cbn [lift of_library run_bind app].
  rewrite (process_entries_reports _ _ _ [] [] [] _ Hreports).
  cbn [lift call run_bind app].
  rewrite to_csv_table, pdf_step_table, results_frame_table, !known_rows_results.
  destruct (encode_utf8 (rows_csv (known_rows reports))) as [e|csv]; [done|].
  cbn [lift call run_bind app]. rewrite write_archive_reports.
  by destruct (write_error [] (archive_members reports)).
Qed.

(** A run raises before the table is shown, or it has its processed
    reports. *)
Lemma process_cases uploaded mapping_text :
  (∃ e, process uploaded mapping_text = ([], inl e)) ∨
  ∃ mapping zf reports,
    parse_mapping mapping_text = inr mapping ∧
    zipfile_ZipFile uploaded = inr zf ∧
    processed mapping zf reports.
Proof.
  unfold process.
  destruct (parse_mapping mapping_text) as [e|mapping] eqn:Hparse;
    [left; by eexists|].
  destruct (zipfile_ZipFile uploaded) as [e|zf] eqn:Hzip;
    [left; by eexists|].
  cbn [lift of_library run_bind app].
  destruct (process_entries mapping zf ([], [], []) (infolist zf))
    as [e|st] eqn:Hloop; [left; by eexists|].
  right. apply process_entries_spec in Hloop as (reports & Hall & _).
  by exists mapping, zf, reports.
Qed.

Lemma main_process uploaded mapping_text :
  mapping_text ≠ [] →
  main (Some uploaded) mapping_text =
    (inputs_page ++ (process uploaded mapping_text).1,
     (process uploaded mapping_text).2).
Proof.
  intros Hne. destruct mapping_text as [|c text]; [done|].
  unfold main. cbn [call run_bind app].
  by destruct (process uploaded (c :: text)) as [calls r].
Qed.

Lemma main_returned uploaded mapping_text calls :
  mapping_text ≠ [] →
  main (Some uploaded) mapping_text = (calls, inr tt) →
  ∃ mapping zf reports csv,
    parse_mapping mapping_text = inr mapping ∧
    zipfile_ZipFile uploaded = inr zf ∧
    processed mapping zf reports ∧
    encode_utf8 (rows_csv (known_rows reports)) = inr csv ∧
    write_error [] (archive_members reports) = None ∧
    calls = table_calls reports csv ++
      [pdf_call (header_row :: known_rows reports);
       zip_button (archive_members reports)].
Proof.
  intros Hne. rewrite main_process by done.
  destruct (process_cases uploaded mapping_text)
    as [[e ->]|(mapping & zf & reports & Hparse & Hzip & Hreports)]; [done|].
  rewrite (process_of_reports _ _ _ _ _ Hparse Hzip Hreports). cbn zeta.
  destruct (encode_utf8 (rows_csv (known_rows reports))) as [e|csv] eqn:Hcsv;
    [done|].
  destruct (write_error [] (archive_members reports)) eqn:Hwrite; [done|].
  cbn [fst snd]. intros [= <-].
  exists mapping, zf, reports, csv. split_and!; [done..|].
  unfold table_calls. by rewrite <- !app_assoc.
Qed.



(** C4, amended.  In a run that returns, the table shown has exactly one
    row for each processed report whose company is not "Desconhecida", in
    order, and no other row; the CSV offered is the encoding of the text with
    one line for each of these rows; reportlab is given the header row and
    these same rows, and the PDF is offered when it returns, while the error
    message is shown instead, without a PDF, when it raises; the archive
    offered has one member "renomeados/{company}.pdf" for each of these
    reports and one member "nao_encontrados/{original name}" for each other
    report, under the names with which zipfile stores them.  Each of these
    outputs is made once. *)
Theorem reports_routed_once uploaded mapping_text calls :
  mapping_text ≠ [] →
  main (Some uploaded) mapping_text = (calls, inr tt) →
  ∃ mapping zf reports csv,
    parse_mapping mapping_text = inr mapping ∧
    zipfile_ZipFile uploaded = inr zf ∧
    processed mapping zf reports ∧
    encode_utf8 (rows_csv (known_rows reports)) = inr csv ∧
    calls =
      inputs_page ++
      [st_subheader (py "Resultados da Análise");
       st_dataframe (rows_frame (known_rows reports));
       csv_button csv;
       match reportlab_build (header_row :: known_rows reports) with
       | inr pdf_buffer => pdf_button pdf_buffer
       | inl e => st_error (py "Erro ao gerar PDF: " ++ exception_str e)
       end;
       zip_button (map renamed_member (filter known reports) ++
                   map review_member (filter (λ rep, ¬ known rep) reports))].
Proof.
  intros Hne Hmain.
  destruct (main_returned _ _ _ Hne Hmain)
    as (mapping & zf & reports & csv & Hparse & Hzip & Hreports & Hcsv & _ & ->).
  exists mapping, zf, reports, csv. split_and!; [done..|].
  unfold table_calls. by rewrite <- !app_assoc.
Qed.

(** C7, amended.  When the run gets as far as the PDF summary and its
    generation raises, the message "Erro ao gerar PDF: " followed by the text
    of the exception is shown after the CSV download, and the run goes on to
    the archive: it offers the archive of all the reports and returns, unless
    the writing of a member raises, in which case the run ends with that
    exception and without the archive. *)
Theorem pdf_failure_is_reported uploaded mapping_text mapping zf reports csv e :
  mapping_text ≠ [] →
  parse_mapping mapping_text = inr mapping →
  zipfile_ZipFile uploaded = inr zf →
  processed mapping zf reports →
  encode_utf8 (rows_csv (known_rows reports)) = inr csv →
  reportlab_build (header_row :: known_rows reports) = inl e →
  main (Some uploaded) mapping_text =
    let shown :=
      inputs_page ++
      [st_subheader (py "Resultados da Análise");
       st_dataframe (rows_frame (known_rows reports));
       csv_button csv;
       st_error (py "Erro ao gerar PDF: " ++ exception_str e)] in
    let members :=
      map renamed_member (filter known reports) ++
      map review_member (filter (λ rep, ¬ known rep) reports) in
    match write_error [] members with
    | None => (shown ++ [zip_button members], inr tt)
    | Some e' => (shown, inl (Propagated e'))
    end.
Proof.
  intros Hne Hparse Hzip Hreports Hcsv Hpdf.
  rewrite main_process by done.
  rewrite (process_of_reports _ _ _ _ _ Hparse Hzip Hreports). cbn zeta.
  rewrite Hcsv. unfold pdf_call. rewrite Hpdf.
  fold (archive_members reports).
  destruct (write_error [] (archive_members reports)); cbn [fst snd];
    by rewrite <- ?app_assoc.
Qed.


End RunFacts.

(** The scenario of the specification: the report named after the CNPJ of
    "Acme Corp" has "EM PARCELAMENTO" in its first section and nothing in the
    second. *)
Example scenario_run :
  ∃ csv,
    encode_utf8 (py "Empresa,Parcelamento RF,Parcelamento PGFN" ++ [10%N]
                 ++ py "Acme Corp,Sim,Não" ++ [10%N]) = inr csv ∧
    main (H := example_env) (Some []) example_mapping_text =
      (inputs_page ++
         [st_subheader (py "Resultados da Análise");
          st_dataframe {| columns := header_row;
                          rows := [[py "Acme Corp"; Sim; Nao]] |};
          csv_button csv;
          pdf_button [37; 80; 68; 70]%N;
          zip_button [(py "renomeados/Acme Corp.pdf", [1%N]);
                      (py "nao_encontrados/relatorio.PDF", [2%N])]],
       inr tt).
Proof. eexists. split; [reflexivity|]. vm_compute. reflexivity. Qed.

(** C4, amended, on the run of the example. *)
Lemma reports_routed_once_witness :
  ∃ mapping zf reports,
    parse_mapping (H := example_env) example_mapping_text = inr mapping ∧
    zipfile_ZipFile (Externals := example_env) [] = inr zf ∧
    processed (H := example_env) mapping zf reports ∧
    zip_button (archive_members (H := example_env) reports)
      ∈ (main (H := example_env) (Some []) example_mapping_text).1.
Proof.
  destruct (reports_routed_once (H := example_env) [] example_mapping_text
              (main (H := example_env) (Some []) example_mapping_text).1)
    as (mapping & zf & reports & csv & Hparse & Hzip & Hreports & _ & Hcalls).
  - discriminate.
  - vm_compute. reflexivity.
  - exists mapping, zf, reports. split_and!; [done..|].
    rewrite Hcalls. rewrite elem_of_app, !elem_of_cons. auto 10.
Defined.

(** C4 as stated fails on the run of the example when reportlab raises: the
    report of "Acme Corp" has its row in the table and its member in the
    archive, but no PDF is offered, so it is in no PDF table. *)
Lemma reports_routed_once_counterexample :
  ¬ every_report_in_every_output (H := failing_pdf_env) [] example_mapping_text.
Proof.
  intros Hclaim.
  assert (main (H := failing_pdf_env) (Some []) example_mapping_text
          = ((main (H := failing_pdf_env) (Some []) example_mapping_text).1, inr tt))
    as Hrun by (vm_compute; reflexivity).
  assert (example_mapping_text ≠ []) as Hne by discriminate.
  destruct (main_returned (H := failing_pdf_env) _ _ _ Hne Hrun)
    as (mapping & zf & reports & _ & Hparse & Hzip & Hreports & _).
  destruct (Hclaim mapping zf reports Hparse Hzip Hreports)
    as (csv & pdf_buffer & _ & Hbuild & _).
  discriminate Hbuild.
Qed.

(** C7, amended, on the run of the example, with a reportlab that raises. *)
Lemma pdf_failure_is_reported_witness :
  (main (H := failing_pdf_env) (Some []) example_mapping_text).2 = inr tt ∧
  st_error (py "Erro ao gerar PDF: layout error")
    ∈ (main (H := failing_pdf_env) (Some []) example_mapping_text).1.
Proof.
  assert (main (H := failing_pdf_env) (Some []) example_mapping_text
          = ((main (H := failing_pdf_env) (Some []) example_mapping_text).1, inr tt))
    as Hrun by (vm_compute; reflexivity).
  assert (example_mapping_text ≠ []) as Hne by discriminate.
  destruct (main_returned (H := failing_pdf_env) _ _ _ Hne Hrun)
    as (mapping & zf & reports & csv & Hparse & Hzip & Hreports & Hcsv & Hwrite & _).
  pose proof (pdf_failure_is_reported (H := failing_pdf_env) [] example_mapping_text
                mapping zf reports csv {| exception_str := py "layout error" |}
                Hne Hparse Hzip Hreports Hcsv eq_refl) as Hmain.
  cbv zeta in Hmain. fold (archive_members (H := failing_pdf_env) reports) in Hmain.
  rewrite Hwrite in Hmain.
  match type of Hmain with
  | ?run = _ =>
    change (run.2 = inr tt ∧
            st_error (py "Erro ao gerar PDF: layout error") ∈ run.1)
  end.
  rewrite Hmain. cbn [fst snd]. split; [done|].
  rewrite !elem_of_app, !elem_of_cons. auto 10.
Defined.

(** C7 as stated fails when a member cannot be written: the archive holds
    one report, whose name of 65524 bytes has no CNPJ; PDF generation raises
    and is reported, the CSV has been offered, and then writing
    "nao_encontrados/{original filename}", a name of 65540 bytes, raises
    [struct.error], so the run ends without the archive. *)
Lemma pdf_failure_aborts_counterexample :
  ¬ pdf_failure_does_not_abort (H := long_name_env) [] example_mapping_text.
Proof.
  intros Hclaim.
  assert ((main (H := long_name_env) (Some []) example_mapping_text).1 !! 7%nat
          = Some (st_error (py "Erro ao gerar PDF: layout error"))) as Hshown
    by (lazy; reflexivity).
  assert ((main (H := long_name_env) (Some []) example_mapping_text).2
          = inl (Propagated
                   {| exception_str := py "'H' format requires 0 <= number <= 65535" |}))
    as Hout by (lazy; reflexivity).
  apply list_elem_of_lookup_2, Hclaim in Hshown as [Hreturns _].
  pose proof (eq_trans (eq_sym Hreturns) Hout) as Habs. discriminate Habs.
Qed.


(** C6, on a run without a known company: the archive holds one report,
    "relatorio.pdf", whose name has no CNPJ.  The frame has no column and the
    CSV that is offered is the line terminator alone, without the row
    "Empresa,Parcelamento RF,Parcelamento PGFN". *)
Theorem csv_without_known_company_has_no_header :
  main (H := unknown_only_env) (Some []) example_mapping_text =
    (inputs_page ++
       [st_subheader (py "Resultados da Análise");
        st_dataframe {| columns := []; rows := [] |};
        csv_button [10%N];
        pdf_button [37; 80; 68; 70]%N;
        zip_button [(py "nao_encontrados/relatorio.pdf", [2%N])]],
     inr tt).
Proof. vm_compute. reflexivity. Qed.

(** * Further properties of the classifier *)

Lemma occurs_nil_inv (sub : str) : occurs sub [] → sub = [].
Proof. intros [i Hi]. by apply occurs_at_nil in Hi as [-> _]. Qed.

Lemma first_occurrence_occurs (sub s : str) (i : nat) :
  first_occurrence sub s i → occurs sub s.
Proof. intros [Hi _]. by exists i. Qed.

Lemma occurs_first_occurrence (sub s : str) :
  occurs sub s → ∃ i, first_occurrence sub s i.
Proof.
  intros Hocc. destruct (find_spec s sub) as [[_ Hno]|(i & _ & Hi)]; [done|].
  by exists i.
Qed.

(** An occurrence in [s ++ extra] that ends within [s] is an occurrence
    in [s]. *)
Lemma occurs_at_app_inv (sub s extra : str) (i : nat) :
  occurs_at sub (s ++ extra) i → (i + length sub ≤ length s)%nat →
  occurs_at sub s i.
Proof.
  intros (before & after & Heq & Hlen) Hle.
  exists before, (drop (i + length sub) s). split; [|done].
  rewrite app_assoc.
  rewrite <- (take_drop (i + length sub) s) at 1. f_equal.
  rewrite <- (take_app_le s extra) by done.
  rewrite Heq, app_assoc. apply take_app_length'.
  rewrite length_app. lia.
Qed.

Lemma occurs_at_app (sub s extra : str) (i : nat) :
  occurs_at sub s i → occurs_at sub (s ++ extra) i.
Proof.
  intros (before & after & -> & Hlen). exists before, (after ++ extra).
  by rewrite <- !app_assoc.
Qed.

Lemma first_occurrence_app (sub s extra : str) (i : nat) :
  first_occurrence sub s i → first_occurrence sub (s ++ extra) i.
Proof.
  intros [Hi Hmin]. split; [by apply occurs_at_app|].
  intros j Hj. destruct (decide (i ≤ j)%nat) as [|Hlt]; [done|].
  apply Hmin, (occurs_at_app_inv _ _ extra); [done|].
  apply occurs_at_length in Hi. lia.
Qed.

(** The section between the titles is not changed by text appended after a
    text that has the PGFN title. *)
Lemma rf_section_app (text extra : str) :
  occurs pgfn_title text → rf_section (text ++ extra) = rf_section text.
Proof.
  intros (j & Hj)%occurs_first_occurrence.
  pose proof (first_occurrence_app _ _ extra _ Hj) as Hj'.
  pose proof (occurs_at_length _ _ _ (proj1 Hj)) as Hjlen.
  destruct (rf_section_spec text) as [(i & j0 & Hi & Hj0 & ->)|[Hno ->]].
  - rewrite (first_occurrence_unique _ _ _ _ Hj0 Hj).
    pose proof (first_occurrence_app _ _ extra _ Hi) as Hi'.
    pose proof (occurs_at_length _ _ _ (proj1 Hi)) as Hilen.
    destruct (rf_section_spec (text ++ extra))
      as [(i1 & j1 & Hi1 & Hj1 & ->)|[[Hno|Hno] _]].
    + rewrite (first_occurrence_unique _ _ _ _ Hi1 Hi').
      rewrite (first_occurrence_unique _ _ _ _ Hj1 Hj').
      unfold substring. rewrite drop_app_le by lia.
      apply take_app_le. rewrite length_drop. lia.
    + destruct Hno. by eapply first_occurrence_occurs.
    + destruct Hno. by eapply first_occurrence_occurs.
  - destruct Hno as [Hno|Hno]; [|destruct Hno; by eapply first_occurrence_occurs].
    destruct (rf_section_spec (text ++ extra))
      as [(i1 & j1 & Hi1 & Hj1 & ->)|[_ ->]]; [|done].
    rewrite (first_occurrence_unique _ _ _ _ Hj1 Hj').
    assert (j ≤ i1)%nat as Hle.
    { destruct (decide (j ≤ i1)%nat) as [|Hlt]; [done|].
      destruct Hno. exists i1. apply (occurs_at_app_inv _ _ extra); [apply Hi1|].
      assert (length rf_title ≤ length pgfn_title)%nat by (vm_compute; lia).
      lia. }
    unfold substring. by replace (j - i1)%nat with 0%nat by lia.
Qed.

(** X1.  A text without the PGFN title gets no flag, whatever else it
    holds: both sections are empty. *)
Theorem no_pgfn_title_no_flag (text : str) :
  ¬ occurs pgfn_title text → analyze_text text = (false, false).
Proof.
  intros Hno. rewrite analyze_text_flags.
  assert (rf_section text = []) as ->.
  { destruct (rf_section_spec text) as [(i & j & _ & Hj & _)|[_ ->]]; [|done].
    destruct Hno. by eapply first_occurrence_occurs. }
  assert (pgfn_section text = []) as ->.
  { destruct (pgfn_section_spec text) as [(j & Hj & _)|[_ ->]]; [|done].
    destruct Hno. by eapply first_occurrence_occurs. }
  reflexivity.
Qed.

Lemma no_pgfn_title_no_flag_witness :
  analyze_text (rf_title ++ py " EM PARCELAMENTO Pendência - Parcelamento")
  = (false, false).
Proof.
  apply no_pgfn_title_no_flag.
  intros Hocc. apply str_in_occurs in Hocc. vm_compute in Hocc. discriminate.
Defined.

(** X2.  The Receita Federal flag is true exactly when both titles occur,
    the first Receita Federal title starts before the first PGFN title, and
    "EM PARCELAMENTO" occurs between the two. *)
Theorem rf_flag_iff (text : str) :
  (analyze_text text).1 = true ↔
  ∃ i j, first_occurrence rf_title text i ∧ first_occurrence pgfn_title text j ∧
         (i < j)%nat ∧ occurs EM_PARCELAMENTO (substring text i j).
Proof.
  rewrite analyze_text_flags. cbn [fst]. rewrite str_in_occurs. split.
  - destruct (rf_section_spec text) as [(i & j & Hi & Hj & ->)|[_ ->]].
    + intros Hocc. exists i, j. split_and!; [done..| |done].
      destruct (decide (i < j)%nat) as [|Hge]; [done|].
      unfold substring in Hocc. replace (j - i)%nat with 0%nat in Hocc by lia.
      by apply occurs_nil_inv in Hocc.
    + by intros ?%occurs_nil_inv.
  - intros (i & j & Hi & Hj & _ & Hocc).
    destruct (rf_section_spec text) as [(i' & j' & Hi' & Hj' & ->)|[[Hno|Hno] _]].
    + by rewrite (first_occurrence_unique _ _ _ _ Hi' Hi),
        (first_occurrence_unique _ _ _ _ Hj' Hj).
    + destruct Hno. by eapply first_occurrence_occurs.
    + destruct Hno. by eapply first_occurrence_occurs.
Qed.

(** X3.  When the first Receita Federal title does not start after the first
    PGFN title, the two sections are adjacent: together they are the text
    from the Receita Federal title to the end. *)
Theorem sections_partition (text : str) (i j : nat) :
  first_occurrence rf_title text i →
  first_occurrence pgfn_title text j →
  (i ≤ j)%nat →
  drop i text = rf_section text ++ pgfn_section text.
Proof.
  intros Hi Hj Hle.
  destruct (rf_section_spec text) as [(i' & j' & Hi' & Hj' & ->)|[[Hno|Hno] _]];
    [|destruct Hno; by eapply first_occurrence_occurs..].
  destruct (pgfn_section_spec text) as [(j'' & Hj'' & ->)|[Hno _]];
    [|destruct Hno; by eapply first_occurrence_occurs].
  rewrite (first_occurrence_unique _ _ _ _ Hi' Hi),
    (first_occurrence_unique _ _ _ _ Hj' Hj),
    (first_occurrence_unique _ _ _ _ Hj'' Hj).
  unfold substring. replace j with (i + (j - i))%nat at 2 by lia.
  by rewrite <- drop_drop, take_drop.
Qed.

Lemma sections_partition_witness :
  let text := py "CNPJ " ++ rf_title ++ py " EM PARCELAMENTO " ++ pgfn_title in
  drop 5 text = rf_section text ++ pgfn_section text.
Proof.
  intros text. apply (sections_partition text 5 59).
  - apply find_first_occurrence. vm_compute. reflexivity.
  - apply find_first_occurrence. vm_compute. reflexivity.
  - lia.
Defined.

(** X4.  Once a text has the PGFN title, text appended to it (further
    pages) never changes the Receita Federal flag and never clears the PGFN
    flag. *)
Theorem flags_of_longer_text (text extra : str) :
  occurs pgfn_title text →
  (analyze_text (text ++ extra)).1 = (analyze_text text).1 ∧
  ((analyze_text text).2 = true → (analyze_text (text ++ extra)).2 = true).
Proof.
  intros Hocc. rewrite !analyze_text_flags. cbn [fst snd]. split.
  - by rewrite rf_section_app.
  - rewrite !str_in_occurs.
    destruct (occurs_first_occurrence _ _ Hocc) as (j & Hj).
    pose proof (first_occurrence_app _ _ extra _ Hj) as Hj'.
    pose proof (occurs_at_length _ _ _ (proj1 Hj)) as Hlen.
    destruct (pgfn_section_spec text) as [(j0 & Hj0 & ->)|[Hno _]]; [|done].
    destruct (pgfn_section_spec (text ++ extra)) as [(j1 & Hj1 & ->)|[Hno _]];
      [|destruct Hno; by eapply first_occurrence_occurs].
    rewrite (first_occurrence_unique _ _ _ _ Hj0 Hj),
      (first_occurrence_unique _ _ _ _ Hj1 Hj').
    rewrite drop_app_le by lia.
    intros [k Hk]. exists k. by apply occurs_at_app.
Qed.

Lemma flags_of_longer_text_witness :
  let text := rf_title ++ py " EM PARCELAMENTO " ++ pgfn_title in
  (analyze_text (text ++ py " Pendência - Parcelamento")).1 = (analyze_text text).1.
Proof.
  intros text. apply flags_of_longer_text.
  apply str_in_occurs. vm_compute. reflexivity.
Defined.

(** * Further properties of the text extraction and of the mapping *)

Section ParsingFacts.
Context `{Externals}.

Lemma add_pages_returns text pages text' :
  add_pages text pages = inr text' ↔
  ∃ texts, pages = map inr texts ∧ text' = text ++ concat (map page_text texts).
Proof.
  revert text. induction pages as [|page pages IH]; intros text.
  - simpl. split.
    + intros [= <-]. exists []. by rewrite app_nil_r.
    + intros ([|??] & Hp & ->); [|done]. by rewrite app_nil_r.
  - destruct page as [e|extracted]; cbn [add_pages of_library res_bind].
    + split; [done|]. by intros ([|??] & Hp & _).
    + rewrite IH. split.
      * intros (texts & -> & ->). exists (extracted :: texts).
        split; [done|]. unfold page_text. simpl. by rewrite <- !app_assoc.
      * intros ([|x texts] & Hp & ->); [done|]. injection Hp as <- ->.
        exists texts. split; [done|]. unfold page_text. simpl.
        by rewrite <- !app_assoc.
Qed.

Lemma add_pages_raises text pages e :
  add_pages text pages = inl e ↔
  ∃ before e0 after,
    pages = map inr before ++ inl e0 :: after ∧ e = Propagated e0.
Proof.
  revert text. induction pages as [|page pages IH]; intros text.
  - simpl. split; [done|]. by intros ([|??] & ? & ? & ? & _).
  - destruct page as [e1|extracted]; cbn [add_pages of_library res_bind].
    + split.
      * intros [= <-]. by exists [], e1, pages.
      * intros ([|??] & e0 & after & Hp & ->); [|done]. by injection Hp as ->.
    + rewrite IH. split.
      * intros (before & e0 & after & -> & ->). by exists (extracted :: before), e0, after.
      * intros ([|x before] & e0 & after & Hp & ->); [done|].
        injection Hp as _ ->. by exists before, e0, after.
Qed.

(** X5.  The extraction returns a text exactly when the reader opens the
    document and every page gives its text or [None]; the text is then, page
    after page, the text of the page (nothing for [None]) followed by a line
    feed. *)
Theorem extract_text_from_bytes_returns (file_bytes : bytes) (text : str) :
  extract_text_from_bytes file_bytes = inr text ↔
  ∃ texts, PdfReader_pages file_bytes = inr (map inr texts) ∧
           text = concat (map page_text texts).
Proof.
  unfold extract_text_from_bytes.
  destruct (PdfReader_pages file_bytes) as [e|pages]; cbn [of_library res_bind].
  - split; [done|]. by intros (? & ? & _).
  - rewrite add_pages_returns. split.
    + intros (texts & -> & ->). by exists texts.
    + intros (texts & [= ->] & ->). by exists texts.
Qed.

(** X6.  The extraction raises exactly the exception of the reader, or of the
    first page whose [extract_text()] raises; nothing is caught. *)
Theorem extract_text_from_bytes_raises (file_bytes : bytes) (e : exn) :
  extract_text_from_bytes file_bytes = inl e ↔
  ∃ e0, e = Propagated e0 ∧
    (PdfReader_pages file_bytes = inl e0 ∨
     ∃ before after,
       PdfReader_pages file_bytes = inr (map inr before ++ inl e0 :: after)).
Proof.
  unfold extract_text_from_bytes.
  destruct (PdfReader_pages file_bytes) as [e1|pages]; cbn [of_library res_bind].
  - split.
    + intros [= <-]. exists e1. split; [done | by left].
    + intros (e0 & -> & [[= ->]|(? & ? & ?)]); done.
  - rewrite add_pages_raises. split.
    + intros (before & e0 & after & -> & ->). exists e0. split; [done|].
      right. by exists before, after.
    + intros (e0 & -> & [?|(before & after & [= ->])]); [done|].
      by exists before, e0, after.
Qed.

Lemma parse_lines_cons mapping line lines :
  parse_lines mapping (line :: lines) =
    if str_in [TAB] line then
      match split line TAB with
      | [name; cnpj] =>
        parse_lines (<[re_sub_nondigits cnpj := strip name]> mapping) lines
      | _ => inl ValueError_unpack
      end
    else parse_lines mapping lines.
Proof. reflexivity. Qed.

Lemma split_no_tab line :
  str_in [TAB] line = false → split line TAB = [line].
Proof.
  intros Hno. unfold split. rewrite split_from_no_sep; [done|].
  intros Hin%str_in_char. congruence.
Qed.

Lemma parse_lines_raises mapping lines e :
  parse_lines mapping lines = inl e ↔
  e = ValueError_unpack ∧
  Exists (λ line, (3 ≤ length (split line TAB))%nat) lines.
Proof.
  revert mapping. induction lines as [|line lines IH]; intros mapping.
  - simpl. split; [done|]. intros [_ Hex]. by apply Exists_nil in Hex.
  - rewrite parse_lines_cons, Exists_cons.
    destruct (str_in [TAB] line) eqn:Htab.
    + apply str_in_char in Htab. apply (split_from_sep _ []) in Htab.
      fold (split line TAB) in Htab.
      destruct (split line TAB) as [|name [|cnpj [|field fields]]];
        simpl in Htab; try lia.
      * rewrite IH. simpl. intuition lia.
      * simpl. split; [intros [= <-]; split; [done | left; lia] | by intros [-> _]].
    + rewrite (split_no_tab _ Htab), IH. simpl. intuition lia.
Qed.

(** X7.  Parsing the mapping raises exactly when some line has two or more
    tabs, that is three or more fields, and the exception is then the one of
    the unpacking; in every other case a mapping is returned. *)
Theorem parse_mapping_raises_iff (mapping_text : str) :
  (∀ e, parse_mapping mapping_text = inl e ↔
        e = ValueError_unpack ∧
        Exists (λ line, (3 ≤ length (split line TAB))%nat) (splitlines mapping_text)) ∧
  ((∃ mapping, parse_mapping mapping_text = inr mapping) ↔
   Forall (λ line, (length (split line TAB) ≤ 2)%nat) (splitlines mapping_text)).
Proof.
  unfold parse_mapping. split; [intros e; apply parse_lines_raises|]. split.
  - intros [mapping Hparse]. apply Forall_forall. intros line Hin.
    destruct (decide (length (split line TAB) ≤ 2)%nat) as [|Hgt]; [done|].
    assert (parse_lines ∅ (splitlines mapping_text) = inl ValueError_unpack) as Hr.
    { apply parse_lines_raises. split; [done|]. apply Exists_exists.
      exists line. split; [done | lia]. }
    congruence.
  - intros Hall. eexists. by apply parse_lines_single_tabs.
Qed.

Lemma parse_mapping_returns_single_tabs mapping_text mapping :
  parse_mapping mapping_text = inr mapping →
  Forall (λ line, (length (split line TAB) ≤ 2)%nat) (splitlines mapping_text).
Proof.
  intros Hparse. apply Forall_forall. intros line Hin.
  destruct (decide (length (split line TAB) ≤ 2)%nat) as [|Hgt]; [done|].
  assert (parse_mapping mapping_text = inl ValueError_unpack) as Hr.
  { apply parse_lines_raises. split; [done|]. apply Exists_exists.
    exists line. split; [done | lia]. }
  congruence.
Qed.

Lemma lstrip_suffix s : ∃ l, s = l ++ lstrip s ∧ Forall (λ c, isspace c = true) l.
Proof.
  induction s as [|c s (l & Hs & Hl)]; simpl.
  - by exists [].
  - destruct (isspace c) eqn:Hc.
    + exists (c :: l). split; [simpl; congruence | by constructor].
    + by exists [].
Qed.

Lemma lstrip_head s c s' : lstrip s = c :: s' → isspace c = false.
Proof.
  induction s as [|d s IH]; simpl; [done|].
  destruct (isspace d) eqn:Hd; [done|]. by intros [= <- _].
Qed.

(** What [strip] returns is the string without the white space around it. *)
Lemma strip_spec s :
  stripped (strip s) ∧
  ∃ l r, s = l ++ strip s ++ r ∧
         Forall (λ c, isspace c = true) l ∧ Forall (λ c, isspace c = true) r.
Proof.
  unfold strip, rstrip.
  destruct (lstrip_suffix s) as (l & Hs & Hl).
  destruct (lstrip_suffix (rev (lstrip s))) as (r & Hr & Hrs).
  assert (lstrip s = rev (lstrip (rev (lstrip s))) ++ rev r) as Hmid.
  { rewrite <- rev_app_distr, <- Hr. by rewrite rev_involutive. }
  split; [split|].
  - intros c s' Heq. rewrite Heq in Hmid. simpl in Hmid.
    by apply lstrip_head in Hmid.
  - intros c s' Heq. apply (f_equal (@rev codepoint)) in Heq.
    rewrite rev_involutive, rev_app_distr in Heq. simpl in Heq.
    by apply lstrip_head in Heq.
  - exists l, (rev r). split_and!; [by rewrite <- Hmid | done |].
    rewrite Forall_forall in Hrs |- *. intros c Hc. apply Hrs.
    by apply list_elem_of_In, in_rev, list_elem_of_In.
Qed.

Lemma splitlines_from_no_linebreak (n : nat) cur s :
  (length s ≤ n)%nat →
  Forall (λ c, is_linebreak c = false) cur →
  Forall (Forall (λ c, is_linebreak c = false)) (splitlines_from cur s).
Proof.
  revert cur s. induction n as [|n IH]; intros cur s Hlen Hcur.
  - destruct s; [|simpl in Hlen; lia]. simpl.
    destruct cur; [constructor | constructor; [done | constructor]].
  - destruct s as [|c s]; simpl.
    { destruct cur; [constructor | constructor; [done | constructor]]. }
    simpl in Hlen. destruct (is_linebreak c) eqn:Hc.
    + constructor; [done|]. destruct s as [|d s]; [constructor|].
      simpl in Hlen.
      destruct ((c =? 13)%N && (d =? 10)%N); apply IH; simpl;
        first [lia | constructor].
    + apply IH; [lia|]. apply Forall_app. split; [done | by repeat constructor].
Qed.

Lemma split_from_fields sep cur s :
  sep ∉ cur →
  Forall (λ field, (sep ∉ field) ∧ (∀ c, c ∈ field → c ∈ cur ++ s))
         (split_from sep cur s).
Proof.
  revert cur. induction s as [|c s IH]; intros cur Hcur; simpl.
  - repeat constructor; [done|]. intros c. by rewrite app_nil_r.
  - destruct (N.eqb_spec c sep) as [->|Hne].
    + constructor.
      * split; [done|]. intros c Hc. apply elem_of_app. by left.
      * eapply Forall_impl; [apply IH, not_elem_of_nil|]. simpl.
        intros field [Hsep Hin]. split; [done|]. intros c Hc.
        apply elem_of_app. right. right. by apply Hin.
    + eapply Forall_impl; [apply (IH (cur ++ [c]))|].
      * rewrite not_elem_of_app, not_elem_of_cons. split_and!; [done | done|].
        apply not_elem_of_nil.
      * simpl. intros field [Hsep Hin]. split; [done|]. intros d Hd.
        apply Hin in Hd. by rewrite <- app_assoc in Hd.
Qed.

(** X8.  Every entry of a parsed mapping comes from a line of the text with
    exactly one tab; its key holds digits only, and its name neither begins
    nor ends with white space and holds no tab and no line boundary. *)
Theorem parsed_entries_normalised mapping_text mapping k v :
  parse_mapping mapping_text = inr mapping →
  mapping !! k = Some v →
  (∃ line name cnpj,
     line ∈ splitlines mapping_text ∧ split line TAB = [name; cnpj] ∧
     k = re_sub_nondigits cnpj ∧ v = strip name) ∧
  Forall (λ c, isdecimal c = true) k ∧ stripped v ∧
  Forall (λ c, is_linebreak c = false ∧ c ≠ TAB) v.
Proof.
  intros Hparse Hkv.
  destruct (parse_mapping_single_tabs mapping_text
              (parse_mapping_returns_single_tabs _ _ Hparse))
    as (mapping' & Hparse' & Hsource & _).
  assert (mapping' = mapping) as -> by congruence.
  destruct (Hsource k v Hkv) as (line & Hin & Hentry).
  unfold line_entry in Hentry.
  destruct (split line TAB) as [|name [|cnpj [|? ?]]] eqn:Hsplit; try done.
  injection Hentry as <- <-. split_and!.
  - by exists line, name, cnpj.
  - unfold re_sub_nondigits. apply Forall_forall. by intros c [? _]%list_elem_of_filter.
  - apply strip_spec.
  - assert (Forall (λ c, is_linebreak c = false) line) as Hline.
    { pose proof (splitlines_from_no_linebreak (length mapping_text) []
                    mapping_text (le_n _) (Forall_nil_2 _)) as Hlines.
      rewrite Forall_forall in Hlines. by apply Hlines. }
    pose proof (split_from_fields TAB [] line (not_elem_of_nil _)) as Hfields.
    fold (split line TAB) in Hfields. rewrite Hsplit in Hfields.
    apply Forall_cons in Hfields as [[Hnotab Hsub] _].
    destruct (strip_spec name) as (_ & l & r & Hname & _ & _).
    apply Forall_forall. intros c Hc.
    assert (c ∈ name) as Hcn.
    { rewrite Hname, !elem_of_app. auto. }
    split.
    + rewrite Forall_forall in Hline. by apply Hline, Hsub.
    + intros ->. by apply Hnotab.
Qed.

(** X9.  Parsing and resolving together: when the last line of the mapping
    text with a given identifier is [name<TAB>cnpj], a file name whose
    leftmost run of fourteen digits is the digits of [cnpj] resolves to
    [name] without the white space around it, however the identifier is
    punctuated. *)
Theorem resolve_parsed_line mapping_text mapping before line after name cnpj filename :
  parse_mapping mapping_text = inr mapping →
  splitlines mapping_text = before ++ line :: after →
  split line TAB = [name; cnpj] →
  Forall (λ l, ∀ v, line_entry l ≠ Some (re_sub_nondigits cnpj, v)) after →
  first_digits14 filename (re_sub_nondigits cnpj) →
  resolve mapping filename = strip name.
Proof.
  intros Hparse Hlines Hsplit Hafter Hfirst.
  destruct (parse_mapping_single_tabs mapping_text
              (parse_mapping_returns_single_tabs _ _ Hparse))
    as (mapping' & Hparse' & _ & Hlast).
  assert (mapping' = mapping) as -> by congruence.
  unfold resolve. apply re_search_first_digits14 in Hfirst. rewrite Hfirst.
  simpl. erewrite Hlast; [done | exact Hlines | | done].
  unfold line_entry. by rewrite Hsplit.
Qed.

End ParsingFacts.

Lemma parsed_entries_normalised_witness :
  stripped (py "Acme Corp").
Proof.
  refine (proj1 (proj2 (proj2 (parsed_entries_normalised (H := example_env) example_mapping_text
           {[ py "11222333000144" := py "Acme Corp" ]} (py "11222333000144")
           (py "Acme Corp") _ _)))).
  - vm_compute. reflexivity.
  - vm_compute. reflexivity.
Defined.

Lemma resolve_parsed_line_witness :
  resolve (H := example_env) {[ py "11222333000144" := py "Acme Corp" ]}
    (py "11222333000144_report.pdf") = py "Acme Corp".
Proof.
  apply (resolve_parsed_line (H := example_env) example_mapping_text _
           [] example_mapping_text [] (py "Acme Corp") (py "11.222.333/0001-44")).
  - vm_compute. reflexivity.
  - vm_compute. reflexivity.
  - vm_compute. reflexivity.
  - constructor.
  - apply re_search_first_digits14. vm_compute. reflexivity.
Defined.

(** * Further properties of a run *)

Section RunMoreFacts.
Context `{Externals}.

Lemma process_entry_returns mapping zf st filename :
  is_pdf_name filename = true →
  (∃ st', process_entry mapping zf st filename = inr st') ↔
  entry_readable zf filename.
Proof.
  intros Hpdf. destruct st as [[rs ms] us].
  unfold process_entry, entry_readable. unfold is_pdf_name in Hpdf. rewrite Hpdf.
  destruct (zf_read zf filename) as [e|file_bytes]; cbn [of_library res_bind].
  - split; [by intros [? ?] | by intros (? & ? & ? & _)].
  - destruct (extract_text_from_bytes file_bytes) as [e|text] eqn:Hext;
      cbn [res_bind].
    + split; [by intros [? ?] | intros (? & ? & [= <-] & ?); congruence].
    + split; [intros _; by exists file_bytes, text|]. intros _.
      destruct (analyze_text text), (negb _); by eexists.
Qed.

(** X10.  Entries whose name does not end in ".pdf" are skipped without
    being read: the loop does on the whole archive what it does on its
    ".pdf" entries alone. *)
Theorem process_entries_skips_other_entries mapping zf st names :
  process_entries mapping zf st names
  = process_entries mapping zf st (filter (λ n, is_pdf_name n = true) names).
Proof.
  revert st. induction names as [|filename names IH]; intros st; [done|].
  rewrite filter_cons. destruct (decide (is_pdf_name filename = true)) as [Hpdf|Hno].
  - rewrite !process_entries_cons.
    destruct (process_entry mapping zf st filename); cbn [res_bind]; [done|].
    apply IH.
  - rewrite process_entries_cons, process_entry_other
      by (by destruct (is_pdf_name filename)).
    cbn [res_bind]. apply IH.
Qed.

(** X11.  The loop returns exactly when every ".pdf" entry can be read and
    its text extracted: one unreadable report makes the whole loop raise. *)
Theorem process_entries_returns_iff mapping zf st names :
  (∃ st', process_entries mapping zf st names = inr st') ↔
  Forall (λ n, is_pdf_name n = true → entry_readable zf n) names.
Proof.
  revert st. induction names as [|filename names IH]; intros st.
  - split; [by constructor | by eexists].
  - rewrite process_entries_cons, Forall_cons.
    destruct (is_pdf_name filename) eqn:Hpdf.
    + rewrite <- (process_entry_returns mapping zf st filename Hpdf).
      destruct (process_entry mapping zf st filename) as [e|st1]; cbn [res_bind].
      * split; [by intros [? ?]|]. intros [Hhead _].
        by destruct (Hhead eq_refl) as [? ?].
      * rewrite IH. split; [intros ?; split; [by eexists | done] | by intros [_ ?]].
    + rewrite process_entry_other by done. cbn [res_bind]. rewrite IH.
      split; [by split | by intros [_ ?]].
Qed.

Lemma Forall2_elem_of_r {A B} (R : A → B → Prop) (l : list A) (k : list B) (y : B) :
  Forall2 R l k → y ∈ k → ∃ x, x ∈ l ∧ R x y.
Proof.
  induction 1 as [|x y' l k HR _ IH]; intros Hin.
  - by apply elem_of_nil in Hin.
  - apply elem_of_cons in Hin as [->|Hin].
    + exists x. split; [by left | done].
    + destruct (IH Hin) as (x' & Hx' & HR'). exists x'. split; [by right | done].
Qed.

Lemma filter_split_permutation {A B} (P : A → Prop) `{∀ x, Decision (P x)}
    (f g : A → B) (l : list A) :
  map f (filter P l) ++ map g (filter (λ x, ¬ P x) l)
  ≡ₚ map (λ x, if decide (P x) then f x else g x) l.
Proof.
  induction l as [|x l IH]; [done|].
  rewrite (filter_cons P), (filter_cons (λ x, ¬ P x)). simpl.
  destruct (decide (P x)), (decide (¬ P x)); try tauto; simpl.
  - by constructor.
  - rewrite <- Permutation_middle. by constructor.
Qed.

(** X12.  In a run that returns, the members of the output archive are, up
    to their order, one for each ".pdf" entry of the input archive, each
    with the bytes that [zf.read] returns for the name of its entry. *)
Theorem archive_members_are_the_reports uploaded mapping_text calls :
  mapping_text ≠ [] →
  main (Some uploaded) mapping_text = (calls, inr tt) →
  ∃ zf members per_entry,
    zipfile_ZipFile uploaded = inr zf ∧
    zip_button members ∈ calls ∧
    members ≡ₚ per_entry ∧
    Forall2 (λ filename member, zf_read zf filename = inr member.2)
      (filter (λ n, is_pdf_name n = true) (infolist zf)) per_entry.
Proof.
  intros Hne Hmain.
  destruct (main_returned _ _ _ Hne Hmain)
    as (mapping & zf & reports & csv & Hparse & Hzip & Hall & Hcsv & _ & ->).
  exists zf, (archive_members reports),
    (map (λ rep, if decide (known rep) then renamed_member rep
                 else review_member rep) reports).
  split_and!.
  - done.
  - rewrite !elem_of_app, !elem_of_cons. auto 10.
  - apply filter_split_permutation.
  - apply Forall2_fmap_r. eapply Forall2_impl; [exact Hall|].
    intros filename rep (_ & Hread & _). unfold compose.
    destruct (decide (known rep)); exact Hread.
Qed.

(** How a run can raise: before anything is offered, or, with the CSV
    offered and the PDF step done, while a member of the archive is
    written. *)
Lemma main_raised zip_file mapping_text calls e :
  main zip_file mapping_text = (calls, inl e) →
  calls = inputs_page ∨
  (∃ df, calls = inputs_page ++
                 [st_subheader (py "Resultados da Análise"); st_dataframe df]) ∨
  ∃ uploaded mapping zf reports csv e',
    zip_file = Some uploaded ∧
    parse_mapping mapping_text = inr mapping ∧
    zipfile_ZipFile uploaded = inr zf ∧
    processed mapping zf reports ∧
    write_error [] (archive_members reports) = Some e' ∧
    e = Propagated e' ∧
    calls = table_calls reports csv ++ [pdf_call (header_row :: known_rows reports)].
Proof.
  destruct zip_file as [uploaded|]; [|done].
  destruct mapping_text as [|ch text]; [done|].
  rewrite main_process by done.
  destruct (process_cases uploaded (ch :: text))
    as [[e0 ->]|(mapping & zf & reports & Hparse & Hzip & Hreports)].
  { cbn [fst snd]. rewrite app_nil_r. intros [= <- _]. by left. }
  rewrite (process_of_reports _ _ _ _ _ Hparse Hzip Hreports). cbn zeta.
  destruct (encode_utf8 (rows_csv (known_rows reports))) as [e0|csv].
  { cbn [fst snd]. intros [= <- _]. right. left. by eexists. }
  destruct (write_error [] (archive_members reports)) as [e'|] eqn:Hwrite; [|done].
  cbn [fst snd]. intros [= <- <-]. right. right.
  exists uploaded, mapping, zf, reports, csv, e'. split_and!; [done..|].
  unfold table_calls. by rewrite <- !app_assoc.
Qed.

(** X13.  A run that raises never offers the archive.  It offers no download
    at all, unless the exception is the one raised by the writing of a member
    of the archive, which comes after the CSV download and the PDF step. *)
Theorem aborted_run_downloads zip_file mapping_text calls e :
  main zip_file mapping_text = (calls, inl e) →
  (∀ members, zip_button members ∉ calls) ∧
  ((∀ c, c ∈ calls → ¬ is_download c) ∨
   ∃ uploaded mapping zf reports e',
     zip_file = Some uploaded ∧
     parse_mapping mapping_text = inr mapping ∧
     zipfile_ZipFile uploaded = inr zf ∧
     processed mapping zf reports ∧
     write_error [] (archive_members reports) = Some e' ∧
     e = Propagated e').
Proof.
  intros [->|[[df ->]|(uploaded & mapping & zf & reports & csv & e' & -> & Hparse
                       & Hzip & Hreports & Hwrite & -> & ->)]]%main_raised.
  - split.
    + intros members. unfold inputs_page. rewrite !elem_of_cons, elem_of_nil.
      intros Hc; decompose [or] Hc; try done; discriminate.
    + left. intros c. unfold inputs_page. rewrite !elem_of_cons, elem_of_nil.
      intros Hc; decompose [or] Hc; subst; simpl; tauto.
  - split.
    + intros members. unfold inputs_page.
      rewrite elem_of_app, !elem_of_cons, !elem_of_nil.
      intros Hc; decompose [or] Hc; try done; discriminate.
    + left. intros c. unfold inputs_page.
      rewrite elem_of_app, !elem_of_cons, !elem_of_nil.
      intros Hc; decompose [or] Hc; subst; simpl; tauto.
  - split.
    + intros members. unfold table_calls, inputs_page, pdf_call.
      rewrite !elem_of_app, !elem_of_cons, !elem_of_nil.
      destruct (reportlab_build _);
        intros Hc; decompose [or] Hc; try done; try discriminate;
        match goal with
        | Heq : zip_button _ = _ |- _ => vm_compute in Heq; discriminate
        end.
    + right. by exists uploaded, mapping, zf, reports, e'.
Qed.

(** X14.  The run stops after the input page, showing nothing else and
    returning, exactly when no archive was uploaded or the mapping text is
    empty. *)
Theorem nothing_shown_iff_input_missing zip_file mapping_text :
  main zip_file mapping_text = (inputs_page, inr tt) ↔
  zip_file = None ∨ mapping_text = [].
Proof.
  split.
  - destruct zip_file as [uploaded|]; [|by left].
    destruct mapping_text as [|ch text]; [by right|].
    intros Hmain. exfalso.
    assert (ch :: text ≠ []) as Hne by done.
    destruct (main_returned _ _ _ Hne Hmain)
      as (? & ? & ? & ? & _ & _ & _ & _ & _ & Hcalls).
    apply (f_equal length) in Hcalls. unfold table_calls in Hcalls.
    rewrite !length_app in Hcalls. simpl in Hcalls. lia.
  - intros [->| ->]; [done|]. by destruct zip_file.
Qed.

(** X15.  [generate_pdf] hands reportlab the header row followed by one row
    for each result, in order, also when there is no result, and returns or
    raises what reportlab does. *)
Theorem generate_pdf_table (results : list result) :
  generate_pdf results = reportlab_build (header_row :: map table_row results) ∧
  length (pdf_table results) = S (length results) ∧
  Forall (λ row, ∃ name rf_parc pgfn_parc,
            row = [name; sim_nao rf_parc; sim_nao pgfn_parc])
         (tail (pdf_table results)).
Proof.
  unfold generate_pdf. rewrite pdf_table_rows. split_and!; [done | |].
  - simpl. by rewrite length_map.
  - simpl. apply Forall_fmap, Forall_forall. intros r _.
    by exists (empresa r), (rf r), (pgfn r).
Qed.

(** X16.  The CSV text of the known results: with none it is a line
    terminator alone; with one or more it is the row of the three column
    names followed by one row for each result, in order. *)
Theorem csv_of_results (rs : list result) :
  to_csv (results_frame rs) =
    match rs with
    | [] => os_linesep
    | _ :: _ =>
      writerow header_row ++ concat (map (λ r, writerow (table_row r)) rs)
    end.
Proof.
  destruct rs as [|r rs];
    [apply to_csv_no_known_result | apply to_csv_known_results].
Qed.

(** X19.  In a run that returns, the PDF step shows one thing only: the
    download of the summary when its generation returned, and otherwise the
    error message, without a PDF download. *)
Theorem pdf_download_or_error uploaded mapping_text calls :
  mapping_text ≠ [] →
  main (Some uploaded) mapping_text = (calls, inr tt) →
  ∃ results,
    (∃ pdf_buffer, generate_pdf results = inr pdf_buffer ∧
                   pdf_button pdf_buffer ∈ calls ∧
                   ∀ body, st_error body ∉ calls) ∨
    (∃ e, generate_pdf results = inl e ∧
          st_error (py "Erro ao gerar PDF: " ++ exception_str e) ∈ calls ∧
          ∀ pdf_buffer, pdf_button pdf_buffer ∉ calls).
Proof.
  intros Hne Hmain.
  destruct (main_returned _ _ _ Hne Hmain)
    as (mapping & zf & reports & csv & Hparse & Hzip & Hreports & Hcsv & _ & ->).
  exists (map report_result (filter known reports)).
  assert (generate_pdf (map report_result (filter known reports))
          = reportlab_build (header_row :: known_rows reports)) as ->.
  { unfold generate_pdf, known_rows. by rewrite pdf_table_rows, map_map. }
  unfold pdf_call, table_calls.
  destruct (reportlab_build (header_row :: known_rows reports))
    as [e|pdf_buffer]; [right|left].
  - exists e. split_and!; [done | rewrite ?elem_of_app, ?elem_of_cons; auto 10|].
    intros buf. unfold inputs_page.
    rewrite !elem_of_app, !elem_of_cons, !elem_of_nil.
    intros Hc; decompose [or] Hc; try done; try discriminate;
      match goal with
      | Heq : pdf_button _ = _ |- _ => vm_compute in Heq; discriminate
      end.
  - exists pdf_buffer.
    split_and!; [done | rewrite ?elem_of_app, ?elem_of_cons; auto 10|].
    intros body. unfold inputs_page.
    rewrite !elem_of_app, !elem_of_cons, !elem_of_nil.
    intros Hc; decompose [or] Hc; try done; discriminate.
Qed.

End RunMoreFacts.

Lemma archive_members_are_the_reports_witness :
  ∃ members per_entry,
    zip_button members ∈ (main (H := example_env) (Some []) example_mapping_text).1 ∧
    members ≡ₚ per_entry ∧ length per_entry = 2%nat.
Proof.
  destruct (archive_members_are_the_reports (H := example_env) [] example_mapping_text
              (main (H := example_env) (Some []) example_mapping_text).1)
    as (zf & members & per_entry & Hzip & Hbutton & Hperm & Hall).
  - discriminate.
  - vm_compute. reflexivity.
  - injection Hzip as <-. exists members, per_entry. split_and!; [done..|].
    by rewrite <- (Forall2_length _ _ _ Hall).
Defined.

Lemma pdf_download_or_error_witness :
  pdf_button [37; 80; 68; 70]%N
    ∈ (main (H := example_env) (Some []) example_mapping_text).1.
Proof.
  destruct (pdf_download_or_error (H := example_env) [] example_mapping_text
              (main (H := example_env) (Some []) example_mapping_text).1)
    as (results & [(buf & Hpdf & Hbutton & _)|(e & Hpdf & _)]).
  - discriminate.
  - vm_compute. reflexivity.
  - by injection Hpdf as <-.
  - discriminate.
Defined.

Lemma aborted_run_downloads_witness :
  zip_button [] ∉ inputs_page.
Proof.
  apply (aborted_run_downloads (H := example_env) (Some [])
           (py "A" ++ [TAB] ++ py "B" ++ [TAB] ++ py "C") inputs_page ValueError_unpack).
  vm_compute. reflexivity.
Defined.

(** * Further properties: markers and encoding *)

Lemma occurs_substring (sub s : str) (i j : nat) :
  occurs sub (substring s i j) → occurs sub s.
Proof.
  intros (k & before & after & Heq & _). unfold substring in Heq.
  exists (length (take i s ++ before)), (take i s ++ before),
    (after ++ drop (j - i) (drop i s)). split; [|done].
  rewrite <- (take_drop i s) at 1.
  rewrite <- (take_drop (j - i) (drop i s)) at 1.
  rewrite Heq. by rewrite <- !app_assoc.
Qed.

Lemma occurs_drop (sub s : str) (j : nat) : occurs sub (drop j s) → occurs sub s.
Proof.
  intros (k & before & after & Heq & _).
  exists (length (take j s ++ before)), (take j s ++ before), after.
  split; [|done]. rewrite <- (take_drop j s) at 1. rewrite Heq.
  by rewrite <- !app_assoc.
Qed.

(** X17.  A flag is never set without its marker in the text: a true
    Receita Federal flag needs "EM PARCELAMENTO" somewhere in the text, a
    true PGFN flag needs "Pendência - Parcelamento". *)
Theorem flags_need_markers (text : str) :
  ((analyze_text text).1 = true → occurs EM_PARCELAMENTO text) ∧
  ((analyze_text text).2 = true → occurs Pendencia_Parcelamento text).
Proof.
  rewrite analyze_text_flags. cbn [fst snd]. rewrite !str_in_occurs. split.
  - destruct (rf_section_spec text) as [(i & j & _ & _ & ->)|[_ ->]].
    + apply occurs_substring.
    + by intros ?%occurs_nil_inv.
  - destruct (pgfn_section_spec text) as [(j & _ & ->)|[_ ->]].
    + apply occurs_drop.
    + by intros ?%occurs_nil_inv.
Qed.

Lemma flags_need_markers_witness :
  occurs EM_PARCELAMENTO (rf_title ++ py " EM PARCELAMENTO " ++ pgfn_title).
Proof.
  apply flags_need_markers. vm_compute. reflexivity.
Defined.

Ltac div_lia := zify; Z.to_euclidean_division_equations; lia.

Lemma decode_encode_codepoint (c : codepoint) (bs rest : bytes) :
  encode_codepoint c = inr bs →
  utf8_decode (bs ++ rest) 0 0%N = c :: utf8_decode rest 0 0%N.
Proof.
  unfold encode_codepoint.
  repeat match goal with
  | |- context [(?a <? ?b)%N] => destruct (N.ltb_spec a b)
  | |- context [(?a <=? ?b)%N] => destruct (N.leb_spec a b)
  end; simpl; try done; intros [= <-]; cbn [app utf8_decode];
  repeat match goal with
  | |- context [(?a <? ?b)%N] =>
    destruct (N.ltb_spec a b); try (exfalso; div_lia)
  end; f_equal; div_lia.
Qed.

(** X18.  The UTF-8 encoding of the CSV loses nothing: whenever the encoding
    returns, decoding its bytes gives the text back; and it raises exactly
    when the text holds a surrogate. *)
Theorem encode_utf8_lossless (s : str) :
  (∀ bs, encode_utf8 s = inr bs → utf8_decode bs 0 0%N = s) ∧
  (encode_utf8 s = inl UnicodeEncodeError ↔
   Exists (λ c, (55296 ≤ c ≤ 57343)%N) s) ∧
  (∀ e, encode_utf8 s = inl e → e = UnicodeEncodeError).
Proof.
  induction s as [|c s (IHdec & IHraise & IHexn)].
  - split_and!; [by intros bs [= <-] | | done].
    split; [done | by intros ?%Exists_nil].
  - cbn [encode_utf8]. rewrite Exists_cons.
    destruct (encode_codepoint c) as [e|b] eqn:Hc; cbn [res_bind].
    + assert (e = UnicodeEncodeError ∧ (55296 ≤ c ≤ 57343)%N) as [-> Hsur].
      { revert Hc. unfold encode_codepoint.
        repeat match goal with
        | |- context [(?a <? ?b)%N] => destruct (N.ltb_spec a b)
        | |- context [(?a <=? ?b)%N] => destruct (N.leb_spec a b)
        end; simpl; try done; intros [= <-]; split; first [done | lia]. }
      split_and!.
      * done.
      * split; [by left | done].
      * by intros e [= <-].
    + assert (¬ (55296 ≤ c ≤ 57343)%N) as Hok.
      { revert Hc. unfold encode_codepoint.
        repeat match goal with
        | |- context [(?a <? ?b)%N] => destruct (N.ltb_spec a b)
        | |- context [(?a <=? ?b)%N] => destruct (N.leb_spec a b)
        end; simpl; try done; lia. }
      destruct (encode_utf8 s) as [e|bs'] eqn:Hs; cbn [res_bind].
      * split_and!.
        -- done.
        -- split.
           ++ intros [= ->]. right. by apply IHraise.
           ++ intros [?|Hex]; [done|]. by apply IHraise.
        -- intros e' [= <-]. by apply IHexn.
      * split_and!.
        -- intros bs [= <-]. rewrite (decode_encode_codepoint _ _ _ Hc).
           f_equal. by apply IHdec.
        -- split; [done|]. intros [?|Hex]; [done|]. by apply IHraise in Hex.
        -- done.
Qed.

Lemma encode_utf8_lossless_witness :
  utf8_decode [78; 195; 163; 111]%N 0 0%N = py "Não".
Proof.
  apply (encode_utf8_lossless (py "Não")). vm_compute. reflexivity.
Defined.
